(** * Solon: the command dispatch engine

    A shallow embedding of [behavior_registry.py] (pattern matching and the
    app-rules mutators) and [command_processor.py] (behaviour execution and
    the entry point [process_command]), with the properties of the design
    document stated and settled against the code.

    Python values are modelled as follows.
    - [str] is [string]; a character is a code point below 256 (Latin-1),
      which is closed under [str.lower] and [str.strip].
    - a [dict] with a fixed set of optional keys is a record of [option]
      fields; a [dict] with free keys is a [gmap string _].
    - a [list] is a [list]; the ordered [params] dict is an association
      list in insertion order.
    - an exception that leaves a function is an explicit result
      constructor. *)

From Stdlib Require Import String Ascii List ZArith NArith Bool Lia.
From stdpp Require Import base option list gmap strings.

Import ListNotations.
Open Scope string_scope.
Open Scope list_scope.

(** ** Python strings *)

Module PyStr.

Definition code (c : ascii) : N := N_of_ascii c.

Definition in_range (lo hi : N) (c : ascii) : bool :=
  ((lo <=? code c) && (code c <=? hi))%N.

(** [str.isspace] on one code point below 256. *)
Definition isspace (c : ascii) : bool :=
  in_range 9 13 c || in_range 28 32 c || (code c =? 133)%N || (code c =? 160)%N.

Definition isdigit (c : ascii) : bool := in_range 48 57 c.

(** Upper-case code points below 256: A-Z and the Latin-1 capitals
    (U+00C0-U+00DE without the multiplication sign U+00D7). *)
Definition isupper (c : ascii) : bool :=
  in_range 65 90 c || (in_range 192 222 c && negb (code c =? 215)%N).

Definition lower_char (c : ascii) : ascii :=
  if isupper c then ascii_of_N (code c + 32) else c.

(** [s.lower()] *)
Fixpoint lower (s : string) : string :=
  match s with
  | EmptyString => EmptyString
  | String c s' => String (lower_char c) (lower s')
  end.

Fixpoint lstrip (s : string) : string :=
  match s with
  | EmptyString => EmptyString
  | String c s' => if isspace c then lstrip s' else s
  end.

Fixpoint rstrip (s : string) : string :=
  match s with
  | EmptyString => EmptyString
  | String c s' =>
      match rstrip s' with
      | EmptyString => if isspace c then EmptyString else String c EmptyString
      | r => String c r
      end
  end.

(** [s.strip()] *)
Definition strip (s : string) : string := rstrip (lstrip s).

(** [sub in s] *)
Fixpoint contains (sub s : string) : bool :=
  String.prefix sub s ||
  match s with
  | EmptyString => false
  | String _ s' => contains sub s'
  end.

(** [s.replace(old, new)] for a non-empty [old] (every call site passes
    one): the occurrences of [old] are replaced left to right, without
    overlap.  [skip] counts the characters of an occurrence that was just
    replaced and are still to be dropped. *)
Fixpoint replace_from (skip : nat) (old new s : string) : string :=
  match s with
  | EmptyString => EmptyString
  | String c s' =>
      match skip with
      | S k => replace_from k old new s'
      | O =>
          if String.prefix old s
          then new +:+ replace_from (String.length old - 1) old new s'
          else String c (replace_from 0 old new s')
      end
  end.

Definition replace (old new s : string) : string := replace_from 0 old new s.

(** A character other than [o]. *)
Definition differs (o : ascii) (c : ascii) : bool := negb (Ascii.eqb c o).

(** [all(pred(c) for c in s)] *)
Fixpoint all_chars (p : ascii -> bool) (s : string) : bool :=
  match s with
  | EmptyString => true
  | String c s' => p c && all_chars p s'
  end.

End PyStr.

(** ** The fragment of Python's [re] that the registry's patterns use

    A pattern of the fragment is a sequence of atoms (a literal character,
    [.], [\d], an escaped punctuation character), each with an optional
    quantifier ([*], [+], [?], greedy or lazy), and of capturing groups
    around such atoms: this covers the sub-patterns that [match_command]
    writes into a pattern and the phrases around them.  The matcher is the
    backtracking matcher of [re]: it lists the matches in the order in
    which [re] tries them, and [search] takes the first.  Any other pattern
    is reported as [Unsupported]. *)

Module PyRe.

Import PyStr.

Inductive atom :=
| Lit (c : ascii)      (* a literal character *)
| AnyChar              (* [.] : any character but a newline *)
| Digit.               (* [\d] *)

Inductive qkind := Once | Star | Plus | Opt.

(** A quantifier and whether it is greedy ([*]) or lazy ([*?]). *)
Record quant := Quant { q_kind : qkind; q_greedy : bool }.

Definition item : Type := atom * quant.

Inductive node :=
| NAtom (i : item)
| NGroup (body : list item).   (* a capturing group around atoms *)

Definition newline : ascii := ascii_of_N 10.

(** With [re.IGNORECASE] a literal matches a character with the same lower
    case. *)
Definition atom_ok (a : atom) (c : ascii) : bool :=
  match a with
  | Lit x => Ascii.eqb (lower_char x) (lower_char c)
  | AnyChar => negb (Ascii.eqb c newline)
  | Digit => isdigit c
  end.

(** Every way to split [s] into a run of characters accepted by [a] and the
    rest, shortest run first. *)
Fixpoint spans (a : atom) (s : string) : list (string * string) :=
  (EmptyString, s) ::
  match s with
  | EmptyString => []
  | String c s' =>
      if atom_ok a c
      then map (fun pr => (String c (fst pr), snd pr)) (spans a s')
      else []
  end.

(** The splits a quantified atom allows, in the order the backtracking
    matcher tries them: a greedy quantifier tries the longest run first, a
    lazy one the shortest. *)
Definition choices (i : item) (s : string) : list (string * string) :=
  let '(a, q) := i in
  let cands :=
    match q_kind q with
    | Once => firstn 1 (tail (spans a s))
    | Star => spans a s
    | Plus => tail (spans a s)
    | Opt => firstn 2 (spans a s)
    end in
  if q_greedy q then rev cands else cands.

(** All matches of a sequence of quantified atoms at the start of [s], as
    (matched text, rest), in backtracking order. *)
Fixpoint run_items (body : list item) (s : string) : list (string * string) :=
  match body with
  | [] => [(EmptyString, s)]
  | i :: more =>
      flat_map (fun pr =>
        map (fun pr' => (fst pr +:+ fst pr', snd pr')) (run_items more (snd pr)))
        (choices i s)
  end.

(** All matches of a pattern at the start of [s], as (captured groups,
    rest), in backtracking order. *)
Fixpoint run (p : list node) (s : string) : list (list string * string) :=
  match p with
  | [] => [([], s)]
  | NAtom i :: more =>
      flat_map (fun pr => run more (snd pr)) (choices i s)
  | NGroup body :: more =>
      flat_map (fun pr =>
        map (fun pr' => (fst pr :: fst pr', snd pr')) (run more (snd pr)))
        (run_items body s)
  end.

(** *** What a pattern matches

    The relation that [run] enumerates: [derive p txt groups] holds when the
    pattern [p] matches exactly the text [txt] and its groups capture
    [groups]. *)

Definition len_ok (k : qkind) (n : nat) : Prop :=
  match k with
  | Once => n = 1%nat
  | Star => True
  | Plus => (1 <= n)%nat
  | Opt => (n <= 1)%nat
  end.

Definition item_ok (i : item) (t : string) : Prop :=
  all_chars (atom_ok (fst i)) t = true /\ len_ok (q_kind (snd i)) (String.length t).

Fixpoint items_derive (body : list item) (txt : string) : Prop :=
  match body with
  | [] => txt = EmptyString
  | i :: more =>
      exists t1 t2, txt = t1 +:+ t2 /\ item_ok i t1 /\ items_derive more t2
  end.

Fixpoint derive (p : list node) (txt : string) (groups : list string) : Prop :=
  match p with
  | [] => txt = EmptyString /\ groups = []
  | NAtom i :: more =>
      exists t1 t2, txt = t1 +:+ t2 /\ item_ok i t1 /\ derive more t2 groups
  | NGroup body :: more =>
      exists t1 t2 gs,
        txt = t1 +:+ t2 /\ groups = t1 :: gs /\
        items_derive body t1 /\ derive more t2 gs
  end.

(** *** Parsing a pattern *)

Inductive pending :=
| PNone
| PAtom (a : atom)
| PQuant (a : atom) (k : qkind).

Record pstate := PState {
  ps_done : list node;            (* finished nodes, last first *)
  ps_group : option (list item);  (* body of the open group, last first *)
  ps_pend : pending;              (* atom that may still take a quantifier *)
  ps_esc : bool                   (* the previous character was a backslash *)
}.

Definition emit (i : item) (st : pstate) : pstate :=
  match ps_group st with
  | Some body => PState (ps_done st) (Some (i :: body)) PNone (ps_esc st)
  | None => PState (NAtom i :: ps_done st) None PNone (ps_esc st)
  end.

Definition flush (st : pstate) : pstate :=
  match ps_pend st with
  | PNone => st
  | PAtom a => emit (a, Quant Once true) st
  | PQuant a k => emit (a, Quant k true) st
  end.

Definition set_pend (a : atom) (st : pstate) : pstate :=
  let st' := flush st in
  PState (ps_done st') (ps_group st') (PAtom a) false.

Definition isalnum_ascii (c : ascii) : bool :=
  in_range 48 57 c || in_range 65 90 c || in_range 97 122 c.

Definition qkind_of (c : ascii) : option qkind :=
  if Ascii.eqb c "*" then Some Star
  else if Ascii.eqb c "+" then Some Plus
  else if Ascii.eqb c "?" then Some Opt
  else None.

(** Characters with a meaning in [re] that this fragment leaves out. *)
Definition unsupported_char (c : ascii) : bool :=
  existsb (Ascii.eqb c) ["["; "]"; "{"; "}"; "|"; "^"; "$"]%char.

(** One character of the pattern.  [None]: the pattern is outside the
    fragment (alternation, classes, anchors, counted repeats, nested or
    quantified groups, group extensions, other escapes), or [re] rejects it
    (nothing to repeat, multiple repeat, unbalanced parenthesis). *)
Definition pstep (st : pstate) (c : ascii) : option pstate :=
  if ps_esc st then
    if Ascii.eqb c "d" then Some (set_pend Digit st)
    else if isalnum_ascii c then None
    else Some (set_pend (Lit c) st)
  else
    match qkind_of c with
    | Some k =>
        match ps_pend st with
        | PAtom a => Some (PState (ps_done st) (ps_group st) (PQuant a k) false)
        | PQuant a k' =>
            if Ascii.eqb c "?" then Some (emit (a, Quant k' false) st) else None
        | PNone => None
        end
    | None =>
        if Ascii.eqb c "\" then
          let st' := flush st in
          Some (PState (ps_done st') (ps_group st') PNone true)
        else if Ascii.eqb c "(" then
          let st' := flush st in
          match ps_group st' with
          | Some _ => None
          | None => Some (PState (ps_done st') (Some []) PNone false)
          end
        else if Ascii.eqb c ")" then
          let st' := flush st in
          match ps_group st' with
          | Some body =>
              Some (PState (NGroup (rev body) :: ps_done st') None PNone false)
          | None => None
          end
        else if Ascii.eqb c "." then Some (set_pend AnyChar st)
        else if unsupported_char c then None
        else Some (set_pend (Lit c) st)
    end.

Fixpoint psteps (st : pstate) (s : string) : option pstate :=
  match s with
  | EmptyString => Some st
  | String c s' =>
      match pstep st c with
      | Some st' => psteps st' s'
      | None => None
      end
  end.

Definition pfinish (st : pstate) : option (list node) :=
  if ps_esc st then None
  else
    let st' := flush st in
    match ps_group st' with
    | Some _ => None
    | None => Some (rev (ps_done st'))
    end.

(** A state outside any group, with nothing pending. *)
Definition settled (dn : list node) : pstate := PState dn None PNone false.

Definition pinit : pstate := settled [].

Definition parse (pattern : string) : option (list node) :=
  match psteps pinit pattern with
  | Some st => pfinish st
  | None => None
  end.





(** *** Searching *)

Inductive search_result :=
| Match (groups : list string)   (* a match object; [groups] is [m.groups()] *)
| NoMatch                        (* [None] *)
| Unsupported.                   (* outside the fragment, or [re.error] *)

(** The leftmost match: every start position is tried in turn, the end of
    the text included. *)
Fixpoint search_nodes (p : list node) (s : string) : option (list string) :=
  match run p s with
  | (groups, _) :: _ => Some groups
  | [] =>
      match s with
      | EmptyString => None
      | String _ s' => search_nodes p s'
      end
  end.

(** [re.search(pattern, text, re.IGNORECASE)] *)
Definition search (pattern text : string) : search_result :=
  match parse pattern with
  | None => Unsupported
  | Some p =>
      match search_nodes p text with
      | Some groups => Match groups
      | None => NoMatch
      end
  end.

End PyRe.

(** ** Data model *)

(** A scalar of the configuration documents (YAML or JSON). *)
Inductive scalar :=
| SNull
| SBool (b : bool)
| SNum (n : Z)
| SStr (s : string).

(** An entry of a behaviour's [actions] list.  A field is [None] when the
    key is absent.  The fields that [_substitute_params] receives are
    strings, as its signature ([text: str]) has it. *)
Record action := Action {
  a_type : option string;
  a_app : option string;
  a_args : option (list string);
  a_display : option scalar;
  a_maximize : option scalar;
  a_repo_path : option string;
  a_port : option string
}.

(** An entry of [behaviors.yaml]. *)
Record behavior := Behavior {
  b_name : option string;
  b_pattern : option string;
  b_actions : option (list action)
}.

(** The [params] dict of a match, in insertion order.  A value is [None]
    when the match object has no group. *)
Definition params : Type := list (string * option string).

(** What a call gives back: a value or an exception.  [PatternError] is
    the exception that leaves [re.search] on a pattern it rejects; the
    model stops there as well on a pattern outside its fragment
    ([PyRe.Unsupported]).  [CallError] is an exception that a collaborator
    of the processor lets through. *)
Inductive result (A : Type) :=
| Ok (a : A)
| PatternError
| CallError.

Arguments Ok {A} a.
Arguments PatternError {A}.
Arguments CallError {A}.

(** What a function of the environment hands back to its caller. *)
Inductive outcome (A : Type) :=
| Returned (a : A)
| Raised.                            (* an exception leaves the function *)

Arguments Returned {A} a.
Arguments Raised {A}.

(** Truth value of a string. *)
Definition nonempty (s : string) : bool := negb (String.eqb s "").

(** ** [BehaviorRegistry.match_command] *)

(** Lines 87-88: the pattern becomes a regular expression. *)
Definition compile_pattern (pattern : string) : string :=
  PyStr.replace ".*" ".*?"
    (PyStr.replace "{port}" "(\d+)"
       (PyStr.replace "{repo}" "(.+?)" pattern)).

(** [match.group(1) if match.groups() else None] *)
Definition group1 (groups : list string) : option string := head groups.

(** Lines 94-98. *)
Definition extract_params (pattern : string) (groups : list string) : params :=
  (if PyStr.contains "{repo}" pattern then [("repo", group1 groups)] else []) ++
  (if PyStr.contains "{port}" pattern then [("port", group1 groups)] else []).







(** [behavior.get('pattern', '')] *)
Definition pattern_of (b : behavior) : string := default "" (b_pattern b).


(** The [for] loop of lines 81-105 over [self.behaviors]. *)
Fixpoint match_loop (behaviors : list behavior) (command_lower : string)
  : result (option (behavior * params)) :=
  match behaviors with
  | [] => Ok None
  | b :: rest =>
      let pattern := pattern_of b in
      if String.eqb pattern "" then match_loop rest command_lower
      else
        match PyRe.search (compile_pattern pattern) command_lower with
        | PyRe.Match groups => Ok (Some (b, extract_params pattern groups))
        | PyRe.NoMatch => match_loop rest command_lower
        | PyRe.Unsupported => PatternError
        end
  end.

Definition match_command (behaviors : list behavior) (command : string)
  : result (option (behavior * params)) :=
  match_loop behaviors (PyStr.lower command).

(** A behaviour that the loop passes over: its pattern is empty, or its
    compiled pattern is not found in the text. *)
Definition passed_over (command_lower : string) (b : behavior) : Prop :=
  pattern_of b = "" \/
  PyRe.search (compile_pattern (pattern_of b)) command_lower = PyRe.NoMatch.

(** ** [CommandProcessor] *)

(** A call to an external collaborator, with its arguments. *)
Inductive call :=
| LaunchApp (app : string) (args : list string)
| MoveWindowsToDisplay (app : string) (display maximize : scalar)
| CloseWindowsExcept (app repo_path : string)
| KillPort (port : Z)
| OpenCursorWithRepo (repo_name : string)
| OpenVscodeWithRepo (repo_name : string)
| FindRepoInDesktop (repo_name : string).

(** What the processor asks of the other components, oldest first. *)
Inductive event :=
| AskedRegistry (command : string)   (* [self.registry.match_command] *)
| Called (c : call).

Definition trace : Type := list event.

(** The dict that [execute_behavior] returns.  An entry of [results] is
    [None] for Python's [None]. *)
Record behavior_result := BehaviorResult {
  success : bool;
  behavior_name : option string;
  results : list (option bool)
}.

(** The dict that [process_command] returns. *)
Inductive command_result :=
| FromBehavior (r : behavior_result)             (* success, behavior, results *)
| Failure (error : string)                       (* success=False, error *)
| FromDirect (ok : bool) (command : string).     (* success, command *)

(** [str(value)] for a value of [params]. *)
Definition str_of (v : option string) : string := default "None" v.

(** [_substitute_params], lines 147-152. *)
Definition _substitute_params (text : string) (ps : params) : string :=
  fold_left
    (fun result kv => PyStr.replace ("{" +:+ fst kv +:+ "}") (str_of (snd kv)) result)
    ps text.

(** Truth value of an entry of [results], as [all] sees it. *)
Definition truthy (r : option bool) : bool := default false r.

(** The action types that [execute_behavior] knows. *)
Definition recognised (a : action) : bool :=
  bool_decide (a_type a = Some "launch_app") ||
  bool_decide (a_type a = Some "move_windows") ||
  bool_decide (a_type a = Some "close_windows_except") ||
  bool_decide (a_type a = Some "kill_port").

(** Sequencing of calls that may raise: the first exception ends the
    run. *)
Definition on_ok {A B : Type} (x : result A * trace)
    (f : A -> trace -> result B * trace) : result B * trace :=
  match x with
  | (Ok a, t) => f a t
  | (PatternError, t) => (PatternError, t)
  | (CallError, t) => (CallError, t)
  end.

Section Processor.

(** The collaborators are taken by their interface: a call returns a
    [bool] or raises, which may depend on what happened before.
    [move_windows_to_display] and [close_windows_except] raise what
    [run_applescript] does not catch, and [kill_port] what its loop does
    not catch: every exception but [CalledProcessError], none of them a
    [ValueError]. *)
Variable env : trace -> call -> outcome bool.

(** [int(s)] for a [str]: the number, or [None] for [ValueError]. *)
Variable py_int : string -> option Z.

(** The fallback of line 45, [parse_direct_command] below. *)
Variable parse_direct_command : string -> trace -> result command_result * trace.

(** A collaborator is called: the call is recorded and the environment
    decides how it goes.  [launch_app] catches every exception and
    answers [False] (lines 24-29 of [app_launcher.py]); no other
    collaborator does. *)
Definition invoke (c : call) (t : trace) : result bool * trace :=
  (match env t c, c with
   | Returned answer, _ => Ok answer
   | Raised, LaunchApp _ _ => Ok false
   | Raised, _ => CallError
   end,
   t ++ [Called c]).

(** [result = collaborator(...)] *)
Definition assigned (c : call) (t : trace) : result (option bool) * trace :=
  on_ok (invoke c t) (fun answer t' => (Ok (Some answer), t')).

(** The body of the [for] loop, lines 53-78: the value of [result] after
    the [if]/[elif] chain, or the exception that leaves it. *)
Definition run_action (ps : params) (a : action) (t : trace)
  : result (option bool) * trace :=
  let action_type := a_type a in
  if decide (action_type = Some "launch_app") then
    let app := _substitute_params (default "" (a_app a)) ps in
    let args := map (fun arg => _substitute_params arg ps) (default [] (a_args a)) in
    assigned (LaunchApp app args) t
  else if decide (action_type = Some "move_windows") then
    let app := _substitute_params (default "" (a_app a)) ps in
    let display := default (SNum 1) (a_display a) in
    let maximize := default (SBool false) (a_maximize a) in
    assigned (MoveWindowsToDisplay app display maximize) t
  else if decide (action_type = Some "close_windows_except") then
    let app := _substitute_params (default "" (a_app a)) ps in
    let repo_path := _substitute_params (default "" (a_repo_path a)) ps in
    assigned (CloseWindowsExcept app repo_path) t
  else if decide (action_type = Some "kill_port") then
    let port_str := _substitute_params (default "" (a_port a)) ps in
    match py_int port_str with
    | Some port => assigned (KillPort port) t
    | None => (Ok (Some false), t)
    end
  else (Ok None, t).

(** The [for] loop of lines 52-80, from a given state of [results] and of
    the trace: each turn appends the outcome of its action; an exception
    ends the loop. *)
Fixpoint action_loop (ps : params) (actions : list action)
    (acc : list (option bool) * trace) : result (list (option bool)) * trace :=
  match actions with
  | [] => (Ok (fst acc), snd acc)
  | a :: rest =>
      on_ok (run_action ps a (snd acc))
        (fun r t1 => action_loop ps rest (fst acc ++ [r], t1))
  end.

(** [execute_behavior], lines 47-87. *)
Definition execute_behavior (b : behavior) (ps : params) (t : trace)
  : result behavior_result * trace :=
  let actions := default [] (b_actions b) in
  on_ok (action_loop ps actions ([], t)) (fun results t' =>
    let success :=
      match results with
      | [] => false
      | _ => forallb truthy results
      end in
    (Ok (BehaviorResult success (b_name b) results), t')).

(** [process_command], lines 31-45, for a processor whose registry holds
    [behaviors]. *)
Definition process_command (behaviors : list behavior) (command : string) (t : trace)
  : result command_result * trace :=
  let command := PyStr.strip command in
  if String.eqb command "" then (Ok (Failure "Empty command"), t)
  else
    let t := t ++ [AskedRegistry command] in
    match match_command behaviors command with
    | PatternError => (PatternError, t)
    | CallError => (CallError, t)
    | Ok (Some (b, ps)) =>
        on_ok (execute_behavior b ps t) (fun r t' => (Ok (FromBehavior r), t'))
    | Ok None => parse_direct_command command t
    end.

(** The collaborator call that an action stands for, if it makes one: it
    depends on the configuration and the parameters only. *)
Definition planned_call (ps : params) (a : action) : option call :=
  let action_type := a_type a in
  let app := _substitute_params (default "" (a_app a)) ps in
  if decide (action_type = Some "launch_app") then
    Some (LaunchApp app (map (fun arg => _substitute_params arg ps) (default [] (a_args a))))
  else if decide (action_type = Some "move_windows") then
    Some (MoveWindowsToDisplay app (default (SNum 1) (a_display a))
            (default (SBool false) (a_maximize a)))
  else if decide (action_type = Some "close_windows_except") then
    Some (CloseWindowsExcept app (_substitute_params (default "" (a_repo_path a)) ps))
  else if decide (action_type = Some "kill_port") then
    KillPort <$> py_int (_substitute_params (default "" (a_port a)) ps)
  else None.

(** The calls of a list of actions, in order. *)
Definition planned_calls (ps : params) (actions : list action) : trace :=
  Called <$> omap (planned_call ps) actions.

(** Whether the call of an action raises in the history [t]; what
    [launch_app] raises inside does not leave it. *)
Definition raises (ps : params) (a : action) (t : trace) : bool :=
  match planned_call ps a with
  | Some (LaunchApp _ _) | None => false
  | Some c => match env t c with Raised => true | Returned _ => false end
  end.

(** What an action whose call does not raise leaves in [results]: the
    answer of the collaborator ([False] when [launch_app] caught an
    exception); without a call, [False] for an action of a recognised
    type (a [kill_port] whose port is no integer) and [None] for any
    other. *)
Definition reported (ps : params) (a : action) (t : trace) : option bool :=
  match planned_call ps a with
  | Some c => Some (match env t c with Returned answer => answer | Raised => false end)
  | None => if recognised a then Some false else None
  end.

End Processor.

(** An entry of [results] is a JSON boolean. *)
Definition is_boolean (r : option bool) : Prop := exists v, r = Some v.

(** ** The fallback parser ([parse_direct_command])

    The six regular expressions of lines 95-134 are written out as the
    searches they stand for.  In each of them a greedy run is followed by
    a class that shares no character with it, so the run is the longest
    one and nothing is given back. *)

(** [\w] on code points below 256: what [str.isalnum] accepts, and [_]. *)
Definition isword (c : ascii) : bool :=
  PyStr.in_range 48 57 c || PyStr.in_range 65 90 c || (PyStr.code c =? 95)%N ||
  PyStr.in_range 97 122 c || (PyStr.code c =? 170)%N || PyStr.in_range 178 179 c ||
  (PyStr.code c =? 181)%N || PyStr.in_range 185 186 c || PyStr.in_range 188 190 c ||
  PyStr.in_range 192 214 c || PyStr.in_range 216 246 c || PyStr.in_range 248 255 c.

(** The longest prefix made of characters of a class, and the rest. *)
Fixpoint span (class : ascii -> bool) (s : string) : string * string :=
  match s with
  | EmptyString => (EmptyString, EmptyString)
  | String c rest =>
      if class c
      then let '(taken, others) := span class rest in (String c taken, others)
      else (EmptyString, s)
  end.

(** A greedy [+] on a class: the run and the rest. *)
Definition run_of (class : ascii -> bool) (s : string) : option (string * string) :=
  let '(taken, rest) := span class s in
  if nonempty taken then Some (taken, rest) else None.

(** The text after a literal at the start of [s]. *)
Fixpoint after_literal (literal s : string) : option string :=
  match literal, s with
  | EmptyString, _ => Some s
  | String a literal', String c rest =>
      if Ascii.eqb a c then after_literal literal' rest else None
  | String _ _, EmptyString => None
  end.

(** [re.search]: the match is tried at every position, from the left, the
    end of the text included. *)
Fixpoint leftmost {A : Type} (at_start : string -> option A) (s : string) : option A :=
  match at_start s with
  | Some found => Some found
  | None =>
      match s with
      | EmptyString => None
      | String _ rest => leftmost at_start rest
      end
  end.

(** [literal\s+(\w+)] at the start of [s], for [move], [close] and
    [except]: group 1. *)
Definition word_after (literal s : string) : option string :=
  rest ← after_literal literal s;
  '(_, rest) ← run_of PyStr.isspace rest;
  '(word, _) ← run_of isword rest;
  Some word.

(** [port\s*(\d+)] at the start of [s]: group 1. *)
Definition port_digits (s : string) : option string :=
  rest ← after_literal "port" s;
  '(digits, _) ← run_of PyStr.isdigit (snd (span PyStr.isspace rest));
  Some digits.

(** [(w\d+|display\s*\d+)] at the start of [s]: group 1, the whole
    match. *)
Definition display_text (s : string) : option string :=
  match after_literal "w" s ≫= run_of PyStr.isdigit with
  | Some (digits, _) => Some ("w" +:+ digits)
  | None =>
      rest ← after_literal "display" s;
      let '(spaces, rest) := span PyStr.isspace rest in
      '(digits, _) ← run_of PyStr.isdigit rest;
      Some ("display" +:+ spaces +:+ digits)
  end.

(** [.*?(\w+)] at the start of [s]: the lazy [.*?] stops at the first
    character of a word and does not pass a line feed. *)
Fixpoint first_word (s : string) : option string :=
  match s with
  | EmptyString => None
  | String c rest =>
      if isword c then Some (fst (span isword s))
      else if Ascii.eqb c PyRe.newline then None
      else first_word rest
  end.

(** [(?:cursor|vscode|code).*?(\w+)] at the start of [s]: group 1. *)
Definition editor_word (s : string) : option string :=
  match after_literal "cursor" s ≫= first_word with
  | Some word => Some word
  | None =>
      match after_literal "vscode" s ≫= first_word with
      | Some word => Some word
      | None => after_literal "code" s ≫= first_word
      end
  end.

Section DirectCommands.

Variable env : trace -> call -> outcome bool.
Variable py_int : string -> option Z.
(** [str.capitalize] *)
Variable py_capitalize : string -> string.
(** [find_repo_in_desktop], lines 59-71 of [app_launcher.py]: the path of
    the repository in the Desktop tree, if there is one. *)
Variable desktop : trace -> string -> option string.

(** [return {"success": result, "command": name}] after a collaborator
    call. *)
Definition direct (name : string) (c : call) (t : trace)
  : result command_result * trace :=
  on_ok (invoke env c t) (fun answer t' => (Ok (FromDirect answer name), t')).

(** Line 145. *)
Definition unknown (command : string) (t : trace) : result command_result * trace :=
  (Ok (Failure ("Unknown command: " +:+ command)), t).

(** Lines 131-143; [otherwise] is what follows the block. *)
Definition close_except_block (command_lower : string) (t : trace)
    (otherwise : trace -> result command_result * trace)
  : result command_result * trace :=
  if PyStr.contains "close" command_lower && PyStr.contains "except" command_lower then
    match leftmost (word_after "close") command_lower,
          leftmost (word_after "except") command_lower with
    | Some app_word, Some repo_name =>
        let app := py_capitalize app_word in
        let t1 := t ++ [Called (FindRepoInDesktop repo_name)] in
        match desktop t repo_name with
        | Some repo_path =>
            if nonempty repo_path
            then direct "close_windows_except" (CloseWindowsExcept app repo_path) t1
            else otherwise t1
        | None => otherwise t1
        end
    | _, _ => otherwise t
    end
  else otherwise t.

(** Lines 122-128. *)
Definition port_block (command_lower : string) (t : trace)
    (otherwise : trace -> result command_result * trace)
  : result command_result * trace :=
  if PyStr.contains "close port" command_lower || PyStr.contains "kill port" command_lower then
    match leftmost port_digits command_lower with
    | Some digits =>
        match py_int digits with
        | Some port => direct "kill_port" (KillPort port) t
        | None => (CallError, t)
        end
    | None => otherwise t
    end
  else otherwise t.

(** Lines 104-119. *)
Definition move_block (command_lower : string) (t : trace)
    (otherwise : trace -> result command_result * trace)
  : result command_result * trace :=
  if PyStr.contains "move" command_lower then
    match leftmost (word_after "move") command_lower,
          leftmost display_text command_lower with
    | Some app_word, Some display_str =>
        let app := py_capitalize app_word in
        let display_num :=
          if PyStr.contains "w1" display_str || PyStr.contains "display 1" display_str
          then 1%Z
          else if PyStr.contains "w2" display_str || PyStr.contains "display 2" display_str
          then 2%Z
          else 1%Z in
        let maximize := PyStr.contains "maximize" command_lower in
        direct "move_windows"
          (MoveWindowsToDisplay app (SNum display_num) (SBool maximize)) t
    | _, _ => otherwise t
    end
  else otherwise t.

(** Lines 93-101. *)
Definition open_repo_block (command_lower : string) (t : trace)
    (otherwise : trace -> result command_result * trace)
  : result command_result * trace :=
  if PyStr.contains "open cursor" command_lower || PyStr.contains "open vscode" command_lower then
    match leftmost editor_word command_lower with
    | Some repo_name =>
        if PyStr.contains "cursor" command_lower
        then direct "open_repo" (OpenCursorWithRepo repo_name) t
        else direct "open_repo" (OpenVscodeWithRepo repo_name) t
    | None => otherwise t
    end
  else otherwise t.

(** [parse_direct_command], lines 89-145. *)
Definition parse_direct_command (command : string) (t : trace)
  : result command_result * trace :=
  let command_lower := PyStr.lower command in
  open_repo_block command_lower t (fun t =>
  move_block command_lower t (fun t =>
  port_block command_lower t (fun t =>
  close_except_block command_lower t (fun t =>
  unknown command t)))).

End DirectCommands.

(** ** App rules and their storage *)

Global Instance scalar_eq_dec : EqDecision scalar.
Proof. solve_decision. Defined.

(** An entry of a display's rule list: a JSON object. *)
Abbreviation rule := (gmap string scalar).

(** The value of [app_rules['startup']]. *)
Record startup_rules := StartupRules {
  keep_open : option (list string);
  close_others : option scalar
}.

(** The value of [self.app_rules]; a field is [None] when the key is
    absent. *)
Record app_rules := AppRules {
  startup : option startup_rules;
  display_rules : option (gmap string (list rule))
}.

(** The structure that [load_app_rules] falls back to, lines 56-59. *)
Definition default_app_rules : app_rules :=
  AppRules
    (Some (StartupRules (Some []) (Some (SBool true))))
    (Some {[ "w1" := []; "w2" := []; "laptop" := [] ]}).

(** A configuration file. *)
Inductive document (A : Type) :=
| Missing                 (* [FileNotFoundError] on [open] *)
| Malformed               (* the parser raises *)
| Stored (content : A).

Arguments Missing {A}.
Arguments Malformed {A}.
Arguments Stored {A} content.

(** How the next write to the app-rules file goes. *)
Inductive write_fault :=
| NoFault
| OpenFails     (* [open(..., 'w')] raises: the file is left as it was *)
| DumpFails.    (* [json.dump] raises after the file was truncated *)

Record disk := Disk {
  behaviors_file : document (option (list behavior));
  app_rules_file : document app_rules;
  faults : list write_fault    (* the fate of the coming writes *)
}.

(** The in-memory state of a [BehaviorRegistry]. *)
Record registry := Registry {
  behaviors : list behavior;
  rules : app_rules
}.

(** [load_behaviors], lines 36-47: [data.get('behaviors', [])]. *)
Definition load_behaviors (d : disk) : list behavior :=
  match behaviors_file d with
  | Stored data => default [] data
  | Missing | Malformed => []
  end.

(** [load_app_rules], lines 49-65. *)
Definition load_app_rules (d : disk) : app_rules :=
  match app_rules_file d with
  | Stored content => content
  | Missing | Malformed => default_app_rules
  end.

(** [reload], lines 181-184. *)
Definition reload (d : disk) : registry :=
  Registry (load_behaviors d) (load_app_rules d).

(** [save_app_rules], lines 67-75: the value it returns and the disk it
    leaves. *)
Definition save_app_rules (ar : app_rules) (d : disk) : bool * disk :=
  match faults d with
  | [] => (true, Disk (behaviors_file d) (Stored ar) [])
  | NoFault :: later => (true, Disk (behaviors_file d) (Stored ar) later)
  | OpenFails :: later => (false, Disk (behaviors_file d) (app_rules_file d) later)
  | DumpFails :: later => (false, Disk (behaviors_file d) Malformed later)
  end.

(** [get_startup_rules], lines 107-109; the empty dict has no key. *)
Definition get_startup_rules (r : registry) : startup_rules :=
  default (StartupRules None None) (startup (rules r)).

(** [get_startup_rules().get('keep_open', [])] *)
Definition startup_keep_open (r : registry) : list string :=
  default [] (keep_open (get_startup_rules r)).

(** [get_display_rules], lines 111-114. *)
Definition get_display_rules (display : string) (r : registry) : list rule :=
  default [] (default ∅ (display_rules (rules r)) !! display).

(** [r.get('app') == app] *)
Definition has_app (app : string) (r : rule) : bool :=
  bool_decide (r !! "app" = Some (SStr app)).

(** The first element that satisfies [p] is replaced by its image under
    [f]: what [existing[0].update(rule)] does to the list that holds the
    dict [existing[0]]. *)
Fixpoint update_first {A} (p : A -> bool) (f : A -> A) (l : list A) : list A :=
  match l with
  | [] => []
  | x :: l' => if p x then f x :: l' else x :: update_first p f l'
  end.

(** A mutator hands back [None] (here [tt]) and leaves a registry and a
    disk. *)
Record mutation := Mutation {
  returned : unit;
  registry_after : registry;
  disk_after : disk
}.

(** The dict [rule] of lines 124-128. *)
Definition new_rule (app behavior : string) (maximize : bool) : rule :=
  {[ "app" := SStr app; "behavior" := SStr behavior; "maximize" := SBool maximize ]}.

(** Lines 130-135 on the list of one display: when a rule has the app, the
    first such rule takes the three keys of the new one ([dict.update]);
    otherwise the new rule goes to the end. *)
Definition add_rule_to (app behavior : string) (maximize : bool)
    (current : list rule) : list rule :=
  let rule := new_rule app behavior maximize in
  let existing := List.filter (has_app app) current in
  match existing with
  | _ :: _ => update_first (has_app app) (fun old => rule ∪ old) current
  | [] => current ++ [rule]
  end.

(** [add_display_rule], lines 116-137. *)
Definition add_display_rule (display app behavior : string) (maximize : bool)
    (r : registry) (d : disk) : mutation :=
  let all_rules := default ∅ (display_rules (rules r)) in
  let current := default [] (all_rules !! display) in
  let current' := add_rule_to app behavior maximize current in
  let ar := AppRules (startup (rules r)) (Some (<[display := current']> all_rules)) in
  let '(_, d') := save_app_rules ar d in
  Mutation tt (Registry (behaviors r) ar) d'.

(** [remove_display_rule], lines 139-151. *)
Definition remove_display_rule (display app : string) (r : registry) (d : disk)
  : mutation :=
  match display_rules (rules r) with
  | None => Mutation tt r d
  | Some all_rules =>
      match all_rules !! display with
      | None => Mutation tt r d
      | Some current =>
          let current' := List.filter (fun x => negb (has_app app x)) current in
          let ar := AppRules (startup (rules r)) (Some (<[display := current']> all_rules)) in
          let '(_, d') := save_app_rules ar d in
          Mutation tt (Registry (behaviors r) ar) d'
      end
  end.

(** [app in keep_open] *)
Definition mem (app : string) (l : list string) : bool :=
  existsb (String.eqb app) l.

(** [add_startup_app], lines 153-163. *)
Definition add_startup_app (app : string) (r : registry) (d : disk) : mutation :=
  let s := default (StartupRules (Some []) (Some (SBool true))) (startup (rules r)) in
  let kept := default [] (keep_open s) in
  let with_kept kept' :=
    AppRules (Some (StartupRules (Some kept') (close_others s)))
      (display_rules (rules r)) in
  if mem app kept then Mutation tt (Registry (behaviors r) (with_kept kept)) d
  else
    let ar := with_kept (kept ++ [app]) in
    let '(_, d') := save_app_rules ar d in
    Mutation tt (Registry (behaviors r) ar) d'.

(** [remove_startup_app], lines 165-175. *)
Definition remove_startup_app (app : string) (r : registry) (d : disk) : mutation :=
  match startup (rules r) with
  | None => Mutation tt r d
  | Some s =>
      match keep_open s with
      | None => Mutation tt r d
      | Some kept =>
          let kept' := List.filter (fun a => negb (String.eqb a app)) kept in
          let ar :=
            AppRules (Some (StartupRules (Some kept') (close_others s)))
              (display_rules (rules r)) in
          let '(_, d') := save_app_rules ar d in
          Mutation tt (Registry (behaviors r) ar) d'
      end
  end.

(** The rules of a display's list that [add_display_rule] finds for an
    app. *)
Definition rules_for (app : string) (l : list rule) : list rule :=
  List.filter (has_app app) l.

(** The invariant of [display_rules]: at most one rule for every display
    and app. *)
Definition one_rule_per_app (r : registry) : Prop :=
  forall display app,
    (length (rules_for app (get_display_rules display r)) <= 1)%nat.

(** The coming write to the app-rules file goes through. *)
Definition next_write_succeeds (d : disk) : Prop :=
  match faults d with
  | [] | NoFault :: _ => True
  | _ => False
  end.

(** The four mutators of the registry, with their arguments. *)
Inductive mutator :=
| AddDisplayRule (display app behavior : string) (maximize : bool)
| RemoveDisplayRule (display app : string)
| AddStartupApp (app : string)
| RemoveStartupApp (app : string).

Definition run_mutator (m : mutator) : registry -> disk -> mutation :=
  match m with
  | AddDisplayRule display app behavior maximize =>
      add_display_rule display app behavior maximize
  | RemoveDisplayRule display app => remove_display_rule display app
  | AddStartupApp app => add_startup_app app
  | RemoveStartupApp app => remove_startup_app app
  end.

(** ** Sample configuration *)

Definition open_repo : behavior :=
  Behavior (Some "open") (Some "open {repo}") None.

Definition kill_port_b : behavior :=
  Behavior (Some "kill") (Some "kill port {port}") None.

Definition idle : behavior := Behavior (Some "idle") (Some "") None.




Definition launch (app : string) : action :=
  Action (Some "launch_app") (Some app) None None None None None.

Definition beep : action :=
  Action (Some "beep") None None None None None None.

(** Three launches; the environment below lets the second fail. *)
Definition morning : behavior :=
  Behavior (Some "morning") (Some "good morning")
    (Some [launch "Mail"; launch "Slack"; launch "Notes"]).

Definition ping : behavior :=
  Behavior (Some "ping") (Some "ping") (Some [launch "Mail"; beep]).

Definition slack_is_down (t : trace) (c : call) : outcome bool :=
  match c with
  | LaunchApp "Slack" _ => Returned false
  | _ => Returned true
  end.




(** [int] on a string of decimal digits, [None] on any other string. *)
Definition decimal_int (s : string) : option Z :=
  if PyStr.all_chars PyStr.isdigit s && negb (String.eqb s "")
  then Some (Z.of_N (fold_left
                       (fun n c => (10 * n + (PyStr.code c - 48))%N)
                       (list_ascii_of_string s) 0%N))
  else None.

(** [str.capitalize] on code points below 256, but for a first character
    [U+00B5], [U+00DF] or [U+00FF], whose capital is not below 256. *)
Definition latin1_capitalize (s : string) : string :=
  match s with
  | EmptyString => EmptyString
  | String c rest =>
      String
        (if PyStr.in_range 97 122 c || PyStr.in_range 224 246 c || PyStr.in_range 248 254 c
         then ascii_of_N (PyStr.code c - 32) else c)
        (PyStr.lower rest)
  end.

(** A Desktop that holds the repository [solon] and no other. *)
Definition desktop_with_solon (t : trace) (repo_name : string) : option string :=
  if String.eqb repo_name "solon" then Some "/Users/me/Desktop/solon" else None.

(** [parse_direct_command] in the sample environment. *)
Definition fallback : string -> trace -> result command_result * trace :=
  parse_direct_command slack_is_down decimal_int latin1_capitalize desktop_with_solon.

Definition empty_disk : disk := Disk Missing Missing [].

Definition read_only_disk : disk := Disk Missing Missing [OpenFails].

Definition fresh : registry := reload empty_disk.

(** ** When a mutator writes *)

(** Whether a mutator goes as far as [save_app_rules]: [add_display_rule]
    always does; the removals return early when the key they need is
    absent (lines 141-145, 167-170); [add_startup_app] saves only an app
    that is not kept yet (line 161). *)
Definition writes (m : mutator) (r : registry) : bool :=
  match m with
  | AddDisplayRule _ _ _ _ => true
  | RemoveDisplayRule display _ =>
      match display_rules (rules r) with
      | Some all_rules => bool_decide (is_Some (all_rules !! display))
      | None => false
      end
  | AddStartupApp app => negb (mem app (startup_keep_open r))
  | RemoveStartupApp _ =>
      match startup (rules r) with
      | Some s => bool_decide (is_Some (keep_open s))
      | None => false
      end
  end.

(** [a != app], the test of the list comprehensions of the removals. *)
Definition other_than (app : string) (a : string) : bool := negb (String.eqb a app).

Definition not_for (app : string) (x : rule) : bool := negb (has_app app x).

(** Mutators called one after the other, as [saveConfiguration_] of the
    configuration window does. *)
Fixpoint run_mutators (ms : list mutator) (r : registry) (d : disk) : registry * disk :=
  match ms with
  | [] => (r, d)
  | m :: later =>
      let out := run_mutator m r d in
      run_mutators later (registry_after out) (disk_after out)
  end.

(** [get_startup_rules().get('close_others', True)], as [handle_startup]
    reads it. *)
Definition startup_close_others (r : registry) : scalar :=
  default (SBool true) (close_others (get_startup_rules r)).

(** * The port manager ([port_manager.py])

    The programs that [subprocess.run] starts are part of the environment:
    an oracle says how each run goes, given the runs made so far. *)

(** How a [subprocess.run] goes. *)
Inductive run_outcome :=
| RunRaises                          (* [run] raises: the program was not started *)
| RunCompletes (returncode : Z) (stdout : string).

(** [s.split(sep)] for a separator of one character. *)
Fixpoint split_on (sep : ascii) (s : string) : list string :=
  match s with
  | EmptyString => [EmptyString]
  | String c rest =>
      if Ascii.eqb c sep then EmptyString :: split_on sep rest
      else
        match split_on sep rest with
        | [] => [String c EmptyString]
        | piece :: pieces => String c piece :: pieces
        end
  end.

(** The command lines that the port manager runs. *)
Inductive port_event :=
| Lsof (port : Z)                    (* ['lsof', '-ti', f':{port}'] *)
| Kill (signal : string) (pid : Z).  (* ['kill', signal, str(pid)] *)

Definition port_trace := list port_event.

Section PortManager.

Variable py_int : string -> option Z.
Variable run : port_trace -> port_event -> run_outcome.

(** [get_processes_on_port], lines 11-27.  [int] raising on a line is
    caught by the [except] of line 25, as [run] raising is. *)
Definition get_processes_on_port (port : Z) (t : port_trace)
  : list Z * port_trace :=
  let t' := t ++ [Lsof port] in
  match run t (Lsof port) with
  | RunRaises => ([], t')
  | RunCompletes returncode stdout =>
      if (returncode =? 0)%Z && nonempty (PyStr.strip stdout) then
        (default []
           (mapM py_int
              (List.filter nonempty (split_on PyRe.newline (PyStr.strip stdout)))),
         t')
      else ([], t')
  end.

(** The loop of lines 41-47; [check=True] raises [CalledProcessError] on a
    return code other than 0, any other exception is not caught. *)
Fixpoint kill_loop (signal : string) (pids : list Z) (st : bool * port_trace)
  : outcome bool * port_trace :=
  match pids with
  | [] => (Returned (fst st), snd st)
  | pid :: rest =>
      let t' := snd st ++ [Kill signal pid] in
      match run (snd st) (Kill signal pid) with
      | RunRaises => (Raised, t')
      | RunCompletes returncode _ =>
          kill_loop signal rest
            (if (returncode =? 0)%Z then fst st else false, t')
      end
  end.

(** [kill_port], lines 30-49. *)
Definition kill_port (port : Z) (force : bool) (t : port_trace)
  : outcome bool * port_trace :=
  let '(pids, t1) := get_processes_on_port port t in
  match pids with
  | [] => (Returned false, t1)
  | _ =>
      let signal := if force then "-9" else "-15" in
      kill_loop signal pids (true, t1)
  end.

(** [close_port], lines 81-83. *)
Definition close_port (port : Z) (t : port_trace) : outcome bool * port_trace :=
  kill_port port false t.

End PortManager.

(** What [lsof -t] prints: one line for each process. *)
Definition lsof_output (lines : list string) : string :=
  fold_right (fun line rest => line +:+ String PyRe.newline rest) "" lines.

(** A line of [lsof -t]: digits, at least one. *)
Definition line_ok (line : string) : Prop :=
  PyStr.all_chars PyStr.isdigit line = true /\ line <> "".

(** The text of the lines without the last line feed. *)
Fixpoint joined (lines : list string) : string :=
  match lines with
  | [] => ""
  | [line] => line
  | line :: rest => line +:+ String PyRe.newline (joined rest)
  end.

(** An environment in which process 93 does not take the signal. *)
Definition stubborn (t : port_trace) (e : port_event) : run_outcome :=
  match e with
  | Lsof _ => RunCompletes 0 (lsof_output ["812"; "93"; "4"])
  | Kill _ pid => RunCompletes (if (pid =? 93)%Z then 1 else 0) ""
  end.

(** An environment in which [kill] cannot be started. *)
Definition no_kill (t : port_trace) (e : port_event) : run_outcome :=
  match e with
  | Lsof _ => RunCompletes 0 (lsof_output ["812"; "93"])
  | Kill _ _ => RunRaises
  end.

(** * The window manager and the display monitor
      ([window_manager.py], [display_monitor.py])

    The AppleScript texts are told apart by the function that builds them
    and the values it puts into the text.  The text of
    [move_windows_to_display] holds the name of the app and, when [maximize]
    is true, the full-screen block; it does not mention [display_num]. *)

(** Truth value of a JSON value, as [if] sees it. *)
Definition truth (v : scalar) : bool :=
  match v with
  | SNull => false
  | SBool b => b
  | SNum n => negb (n =? 0)%Z
  | SStr s => nonempty s
  end.

Inductive script :=
| CountDesktops                               (* [get_display_count] *)
| MoveWindows (app : scalar) (maximize : bool)  (* [move_windows_to_display] *)
| MaximizeWindows (app : scalar)              (* [maximize_window] *)
| MinimizeWindows (app : scalar).             (* [minimize_window] *)

Inductive monitor_event :=
| Osascript (s : script)                      (* ['osascript', '-e', script] *)
| ReadConfig                                  (* [open(self.config_path)] *)
| Callback (k : nat) (display_count : Z).     (* the [k]-th registered callback *)

Definition monitor_trace := list monitor_event.

(** Sequencing of calls that may raise. *)
Definition and_then {A B : Type} (x : outcome A * monitor_trace)
    (f : A -> monitor_trace -> outcome B * monitor_trace)
  : outcome B * monitor_trace :=
  match x with
  | (Returned a, t) => f a t
  | (Raised, t) => (Raised, t)
  end.

Notation "x >>> f" := (and_then x f) (at level 61, left associativity).

(** A [DisplayMonitor]: the callbacks are known by their position in
    [self.callbacks]. *)
Record monitor := Monitor {
  last_display_count : Z;
  callbacks : nat
}.

Section DisplayMonitor.

Variable py_int : string -> option Z.
(** How a run of [osascript] goes. *)
Variable osascript : monitor_trace -> script -> run_outcome.
(** What is at [config_path]. *)
Variable config_file : monitor_trace -> document app_rules.
(** Whether a callback returns; it raises otherwise. *)
Variable callback : monitor_trace -> nat -> Z -> bool.

(** [run_applescript], lines 12-24: only [CalledProcessError], the error
    of a return code other than 0, is caught. *)
Definition run_applescript (s : script) (t : monitor_trace)
  : outcome string * monitor_trace :=
  let t' := t ++ [Osascript s] in
  match osascript t s with
  | RunRaises => (Raised, t')
  | RunCompletes returncode stdout =>
      (Returned (if (returncode =? 0)%Z then PyStr.strip stdout else ""), t')
  end.

(** [result = run_applescript(script); return result != ""] *)
Definition scripted (s : script) (t : monitor_trace) : outcome bool * monitor_trace :=
  run_applescript s t >>> fun result t' => (Returned (nonempty result), t').

(** [move_windows_to_display], lines 67-99. *)
Definition move_windows_to_display (app_name : scalar) (display_num : Z)
    (maximize : scalar) : monitor_trace -> outcome bool * monitor_trace :=
  scripted (MoveWindows app_name (truth maximize)).

(** [maximize_window], lines 102-116. *)
Definition maximize_window (app_name : scalar) := scripted (MaximizeWindows app_name).

(** [minimize_window], lines 119-133. *)
Definition minimize_window (app_name : scalar) := scripted (MinimizeWindows app_name).

(** [apply_window_behavior], lines 180-188. *)
Definition apply_window_behavior (app_name behavior : scalar) (t : monitor_trace)
  : outcome bool * monitor_trace :=
  if decide (behavior = SStr "maximize") then maximize_window app_name t
  else if decide (behavior = SStr "minimize") then minimize_window app_name t
  else if decide (behavior = SStr "keep_same") then (Returned true, t)
  else (Returned false, t).

(** [load_config], lines 26-35: only [FileNotFoundError] is caught. *)
Definition load_config (t : monitor_trace) : outcome app_rules * monitor_trace :=
  let t' := t ++ [ReadConfig] in
  match config_file t with
  | Stored content => (Returned content, t')
  | Missing => (Returned default_app_rules, t')
  | Malformed => (Raised, t')
  end.

(** [get_display_count], lines 37-54: the bare [except] catches all. *)
Definition get_display_count (t : monitor_trace) : Z * monitor_trace :=
  let t' := t ++ [Osascript CountDesktops] in
  match osascript t CountDesktops with
  | RunCompletes 0 stdout => (default 1%Z (py_int (PyStr.strip stdout)), t')
  | _ => (1%Z, t')
  end.

(** The body of the loops of lines 74-82 and 87-95. *)
Definition apply_rule (display_num : Z) (r : rule) (t : monitor_trace)
  : outcome unit * monitor_trace :=
  let app_name := default SNull (r !! "app") in
  let behavior := default (SStr "keep_same") (r !! "behavior") in
  let maximize := default (SBool false) (r !! "maximize") in
  if truth app_name then
    move_windows_to_display app_name display_num maximize t >>> fun _ t1 =>
    if negb (truth maximize) then
      apply_window_behavior app_name behavior t1 >>> fun _ t2 => (Returned tt, t2)
    else (Returned tt, t1)
  else (Returned tt, t).

Fixpoint apply_rules (display_num : Z) (rs : list rule) (t : monitor_trace)
  : outcome unit * monitor_trace :=
  match rs with
  | [] => (Returned tt, t)
  | r :: rest => apply_rule display_num r t >>> fun _ => apply_rules display_num rest
  end.

(** The loop of lines 98-99, from the [k]-th callback on. *)
Fixpoint run_callbacks (n k : nat) (display_count : Z) (t : monitor_trace)
  : outcome unit * monitor_trace :=
  match n with
  | O => (Returned tt, t)
  | S n' =>
      let t' := t ++ [Callback k display_count] in
      if callback t k display_count
      then run_callbacks n' (S k) display_count t'
      else (Raised, t')
  end.

(** [on_display_connected], lines 66-99. *)
Definition on_display_connected (m : monitor) (display_count : Z) (t : monitor_trace)
  : outcome unit * monitor_trace :=
  load_config t >>> fun config t0 =>
  let display_rules := default ∅ (display_rules config) in
  (if (2 <=? display_count)%Z
   then apply_rules 1 (default [] (display_rules !! "w1")) t0
   else (Returned tt, t0)) >>> fun _ t1 =>
  (if (3 <=? display_count)%Z
   then apply_rules 2 (default [] (display_rules !! "w2")) t1
   else (Returned tt, t1)) >>> fun _ t2 =>
  run_callbacks (callbacks m) 0 display_count t2.

(** [check_display_change], lines 56-64, with the monitor it leaves. *)
Definition check_display_change (m : monitor) (t : monitor_trace)
  : outcome Z * monitor * monitor_trace :=
  let '(current_count, t1) := get_display_count t in
  if (current_count =? last_display_count m)%Z then (Returned current_count, m, t1)
  else
    let '(connected, t2) :=
      if (last_display_count m <? current_count)%Z
      then on_display_connected m current_count t1
      else (Returned tt, t1) in
    match connected with
    | Returned _ => (Returned current_count, Monitor current_count (callbacks m), t2)
    | Raised => (Raised, m, t2)
    end.

(** The first [n] turns of the loop of lines 105-113: what a turn raises
    is printed and the loop goes on. *)
Fixpoint polls (n : nat) (m : monitor) (t : monitor_trace) : monitor * monitor_trace :=
  match n with
  | O => (m, t)
  | S n' =>
      let '(_, m', t') := check_display_change m t in
      polls n' m' t'
  end.

(** [start_monitoring], lines 101-113, up to the [n]-th turn of its loop. *)
Definition start_monitoring (n : nat) (m : monitor) (t : monitor_trace)
  : monitor * monitor_trace :=
  let '(display_count, t0) := get_display_count t in
  polls n (Monitor display_count (callbacks m)) t0.

End DisplayMonitor.

(** The scripts that a rule asks for. *)
Definition rule_scripts (r : rule) : list script :=
  let app_name := default SNull (r !! "app") in
  let behavior := default (SStr "keep_same") (r !! "behavior") in
  let maximize := default (SBool false) (r !! "maximize") in
  if truth app_name then
    MoveWindows app_name (truth maximize) ::
    (if truth maximize then []
     else if decide (behavior = SStr "maximize") then [MaximizeWindows app_name]
     else if decide (behavior = SStr "minimize") then [MinimizeWindows app_name]
     else [])
  else [].

(** The scripts of the rules of a display, in the order of the rules. *)
Definition display_scripts (display : string) (config : app_rules) : list script :=
  concat (map rule_scripts
            (default [] (default ∅ (display_rules config) !! display))).

(** A configuration with rules for two external displays. *)
Definition two_displays : app_rules :=
  AppRules None
    (Some {[ "w1" := [ {[ "app" := SStr "Slack"; "behavior" := SStr "minimize" ]};
                      {[ "behavior" := SStr "maximize" ]};
                      {[ "app" := SStr "Cursor"; "maximize" := SBool true;
                         "behavior" := SStr "minimize" ]} ];
             "w2" := [ {[ "app" := SStr "Mail" ]} ];
             "laptop" := [ {[ "app" := SStr "Notes" ]} ] ]}).

(** * The startup tasks of the daemon ([solon_daemon.py], [app_launcher.py]) *)

(** The AppleScript runs of the startup tasks. *)
Inductive startup_event :=
| ListLoginItems                 (* [get_apps_with_login_items] *)
| AskRunning (app : string)      (* [is_app_running] *)
| Quit (app : string).           (* [tell application "app" to quit] *)

Definition startup_trace := list startup_event.

Section Daemon.

Variable osascript : startup_trace -> startup_event -> run_outcome.

(** [get_apps_with_login_items], lines 94-112 of [app_launcher.py]: the
    output of the script is not read. *)
Definition get_apps_with_login_items (t : startup_trace)
  : list string * startup_trace :=
  let t' := t ++ [ListLoginItems] in
  match osascript t ListLoginItems with
  | RunCompletes 0 _ => ([], t')
  | _ => ([], t')
  end.

(** [is_app_running], lines 115-131 of [app_launcher.py]. *)
Definition is_app_running (app_name : string) (t : startup_trace)
  : bool * startup_trace :=
  let t' := t ++ [AskRunning app_name] in
  match osascript t (AskRunning app_name) with
  | RunCompletes 0 stdout => (PyStr.contains "true" (PyStr.lower stdout), t')
  | _ => (false, t')
  end.

(** [handle_startup], lines 69-89. *)
Definition handle_startup (r : registry) (t : startup_trace) : startup_trace :=
  let keep_open := startup_keep_open r in
  let close_others := startup_close_others r in
  let '(login_items, t1) := get_apps_with_login_items t in
  if truth close_others then
    fold_left
      (fun t app =>
         if negb (mem app keep_open) then
           let '(running, t') := is_app_running app t in
           if running then t' ++ [Quit app] else t'
         else t)
      login_items t1
  else t1.

End Daemon.

(** * Facts *)

#[local] Arguments String.append !_ _ : simpl nomatch.

(** ** Strings *)

Module PyStrFacts.

Import PyStr.

Lemma append_nil_r (s : string) : s +:+ "" = s.
Proof. induction s as [|c s IH]; simpl; [reflexivity | now rewrite IH]. Qed.

Lemma append_assoc (a b c : string) : (a +:+ b) +:+ c = a +:+ (b +:+ c).
Proof. induction a as [|x a IH]; simpl; [reflexivity | now rewrite IH]. Qed.

Lemma length_append (a b : string) :
  String.length (a +:+ b) = (String.length a + String.length b)%nat.
Proof. induction a as [|x a IH]; simpl; [reflexivity | now rewrite IH]. Qed.

Lemma length_zero (s : string) : String.length s = 0%nat -> s = "".
Proof. destruct s; [reflexivity | discriminate]. Qed.

(** Two splits of one string at the same length are the same split. *)
Lemma append_inv_length (a a' b b' : string) :
  a +:+ b = a' +:+ b' -> String.length a = String.length a' -> a = a' /\ b = b'.
Proof.
  revert a'. induction a as [|x a IH]; intros [|y a'] H L; simpl in *;
    try discriminate; [now split |].
  injection H as -> H. injection L as L.
  destruct (IH _ H L) as [-> ->]. now split.
Qed.


Lemma lower_app (a b : string) : lower (a +:+ b) = lower a +:+ lower b.
Proof. induction a as [|x a IH]; simpl; [reflexivity | now rewrite IH]. Qed.

Lemma lower_length (s : string) : String.length (lower s) = String.length s.
Proof. induction s as [|x s IH]; simpl; [reflexivity | now rewrite IH]. Qed.

Lemma lower_char_idem (c : ascii) : lower_char (lower_char c) = lower_char c.
Proof.
  destruct c as [[] [] [] [] [] [] [] []]; vm_compute; reflexivity.
Qed.

Lemma lower_idem (s : string) : lower (lower s) = lower s.
Proof.
  induction s as [|x s IH]; simpl; [reflexivity |].
  now rewrite lower_char_idem, IH.
Qed.

End PyStrFacts.

(** ** The matcher enumerates exactly the derivations *)

Module PyReFacts.

Import PyStr PyStrFacts PyRe.

Lemma spans_spec (a : atom) (s pre rest : string) :
  In (pre, rest) (spans a s) <->
  s = pre +:+ rest /\ all_chars (atom_ok a) pre = true.
Proof.
  revert pre. induction s as [|c s IH]; intros pre; simpl.
  - split.
    + intros [H | []]. injection H as <- <-. now split.
    + intros [H _]. left. destruct pre; [simpl in H; now subst | discriminate].
  - split.
    + intros [H | H].
      * injection H as <- <-. now split.
      * destruct (atom_ok a c) eqn:Hc; [| destruct H].
        apply in_map_iff in H as [[p r] [H Hin]]. simpl in H.
        injection H as <- <-. apply IH in Hin as [-> Hp].
        simpl. rewrite Hc, Hp. now split.
    + intros [H Hp]. destruct pre as [|x pre]; simpl in *.
      * left. now subst.
      * right. injection H as <- ->.
        apply andb_prop in Hp as [Hc Hp]. rewrite Hc.
        apply in_map_iff. exists (pre, rest). split; [reflexivity |].
        apply IH. now split.
Qed.

Lemma spans_tail_spec (a : atom) (s pre rest : string) :
  In (pre, rest) (tail (spans a s)) <->
  s = pre +:+ rest /\ all_chars (atom_ok a) pre = true /\
  (1 <= String.length pre)%nat.
Proof.
  split.
  - intros H.
    assert (Hin : In (pre, rest) (spans a s))
      by (destruct s; simpl in *; [destruct H | now right]).
    apply spans_spec in Hin as [-> Hp]. repeat split; [assumption |].
    destruct pre as [|x pre]; simpl; [| lia].
    exfalso. destruct rest as [|c s]; simpl in H; [destruct H |].
    destruct (atom_ok a c); [| destruct H].
    apply in_map_iff in H as [[p r] [H _]]. discriminate.
  - intros (H & Hp & Hl).
    assert (Hin : In (pre, rest) (spans a s)) by (apply spans_spec; now split).
    destruct s as [|c s]; simpl in *.
    + destruct Hin as [Hin | []]. injection Hin as <- <-. simpl in Hl. lia.
    + destruct Hin as [Hin | Hin]; [| assumption].
      injection Hin as <- <-. simpl in Hl. lia.
Qed.

Lemma spans_cons (a : atom) (s : string) :
  spans a s = (EmptyString, s) :: tail (spans a s).
Proof. destruct s; reflexivity. Qed.

Lemma spans_single_spec (a : atom) (s pre rest : string) :
  In (pre, rest) (firstn 1 (tail (spans a s))) <->
  s = pre +:+ rest /\ all_chars (atom_ok a) pre = true /\
  String.length pre = 1%nat.
Proof.
  destruct s as [|c s]; simpl.
  - split; [intros [] |]. intros (H & _ & Hl).
    destruct pre; simpl in *; discriminate.
  - destruct (atom_ok a c) eqn:Hc; simpl.
    + rewrite (spans_cons a s). simpl. split.
      * intros [H | []]. injection H as <- <-. simpl. now rewrite Hc.
      * intros (H & _ & Hl). left.
        destruct pre as [|x [|y pre]]; simpl in *; try discriminate.
        now injection H as <- <-.
    + split; [intros [] |]. intros (H & Hp & Hl).
      destruct pre as [|x [|y pre]]; simpl in *; try discriminate.
      injection H as <- <-. now rewrite Hc in Hp.
Qed.

Lemma spans_opt_spec (a : atom) (s pre rest : string) :
  In (pre, rest) (firstn 2 (spans a s)) <->
  s = pre +:+ rest /\ all_chars (atom_ok a) pre = true /\
  (String.length pre <= 1)%nat.
Proof.
  assert (E : firstn 2 (spans a s) = (EmptyString, s) :: firstn 1 (tail (spans a s)))
    by (destruct s; reflexivity).
  rewrite E. simpl. rewrite spans_single_spec. split.
  - intros [H | (H & Hp & Hl)].
    + injection H as <- <-. simpl. repeat split; lia.
    + repeat split; try assumption; lia.
  - intros (H & Hp & Hl). destruct pre as [|x pre].
    + left. simpl in H. now subst.
    + right. repeat split; try assumption. simpl in *. lia.
Qed.

(** The candidates of a quantified atom are the runs it accepts. *)
Lemma choices_spec (i : item) (s pre rest : string) :
  In (pre, rest) (choices i s) <-> s = pre +:+ rest /\ item_ok i pre.
Proof.
  destruct i as [a [k g]]. unfold choices, item_ok. simpl.
  assert (R : forall l : list (string * string),
             In (pre, rest) (if g then rev l else l) <-> In (pre, rest) l)
    by (intros l; destruct g; [symmetry; apply in_rev | reflexivity]).
  rewrite R. destruct k; simpl.
  - rewrite spans_single_spec. tauto.
  - rewrite spans_spec. tauto.
  - rewrite spans_tail_spec. tauto.
  - rewrite spans_opt_spec. tauto.
Qed.

Lemma run_items_spec (body : list item) (s txt rest : string) :
  In (txt, rest) (run_items body s) <->
  s = txt +:+ rest /\ items_derive body txt.
Proof.
  revert s txt. induction body as [|i more IH]; intros s txt; simpl.
  - split.
    + intros [H | []]. injection H as <- <-. now split.
    + intros [-> ->]. now left.
  - rewrite in_flat_map. split.
    + intros [[p r] [Hc Hin]]. apply choices_spec in Hc as [-> Hi].
      apply in_map_iff in Hin as [[p' r'] [H Hin]]. simpl in H, Hin.
      injection H as <- <-. apply IH in Hin as [-> Hd].
      split; [now rewrite append_assoc |]. now exists p, p'.
    + intros [-> (t1 & t2 & -> & Hi & Hd)].
      exists (t1, t2 +:+ rest). split.
      * apply choices_spec. split; [now rewrite append_assoc | assumption].
      * apply in_map_iff. exists (t2, rest). split; [reflexivity |].
        apply IH. now split.
Qed.

(** Soundness and completeness of [run]. *)
Lemma run_spec (p : list node) (s : string) (groups : list string) (rest : string) :
  In (groups, rest) (run p s) <->
  exists txt, s = txt +:+ rest /\ derive p txt groups.
Proof.
  revert s groups. induction p as [|n more IH]; intros s groups; simpl.
  - split.
    + intros [H | []]. injection H as <- <-. now exists EmptyString.
    + intros (txt & -> & -> & ->). now left.
  - destruct n as [i | body]; rewrite in_flat_map.
    + split.
      * intros [[t1 r] [Hc Hin]]. apply choices_spec in Hc as [-> Hi].
        apply IH in Hin as (t2 & Hr & Hd). simpl in Hr. subst r.
        exists (t1 +:+ t2). split; [now rewrite append_assoc |]. now exists t1, t2.
      * intros (txt & -> & t1 & t2 & -> & Hi & Hd).
        exists (t1, t2 +:+ rest). split.
        -- apply choices_spec. split; [now rewrite append_assoc | assumption].
        -- apply IH. now exists t2.
    + split.
      * intros [[t1 r] [Hc Hin]]. apply run_items_spec in Hc as [-> Hi].
        apply in_map_iff in Hin as [[gs r'] [H Hin]]. simpl in H.
        injection H as <- <-. apply IH in Hin as (t2 & Hr & Hd).
        simpl in Hr. subst r.
        exists (t1 +:+ t2). split; [now rewrite append_assoc |]. now exists t1, t2, gs.
      * intros (txt & -> & t1 & t2 & gs & -> & -> & Hi & Hd).
        exists (t1, t2 +:+ rest). split.
        -- apply run_items_spec. split; [now rewrite append_assoc | assumption].
        -- apply in_map_iff. exists (gs, rest). split; [reflexivity |].
           apply IH. now exists t2.
Qed.

(** A match that [search_nodes] reports is a derivation somewhere in the
    text. *)
Lemma search_nodes_sound (p : list node) (s : string) (groups : list string) :
  search_nodes p s = Some groups ->
  exists before txt rest, s = before +:+ txt +:+ rest /\ derive p txt groups.
Proof.
  induction s as [|c s IH]; simpl.
  - destruct (run p "") as [|[g r] l] eqn:E; [discriminate |].
    intros H. injection H as ->.
    assert (Hin : In (groups, r) (run p "")) by (rewrite E; now left).
    apply run_spec in Hin as (txt & Hs & Hd). now exists EmptyString, txt, r.
  - destruct (run p (String c s)) as [|[g r] l] eqn:E.
    + intros H. destruct (IH H) as (b & txt & rest & -> & Hd).
      now exists (String c b), txt, rest.
    + intros H. injection H as ->.
      assert (Hin : In (groups, r) (run p (String c s))) by (rewrite E; now left).
      apply run_spec in Hin as (txt & Hs & Hd). now exists EmptyString, txt, r.
Qed.


(** *** Plain text in a pattern *)













(** *** What plain text and a one-atom group derive *)





End PyReFacts.

(** ** [str.replace] and [in] on the texts of patterns *)

Module CompileFacts.

Import PyStr PyStrFacts PyRe PyReFacts.

Lemma prefix_nil (s : string) : String.prefix "" s = true.
Proof. destruct s; reflexivity. Qed.

Lemma prefix_app (a b : string) : String.prefix a (a +:+ b) = true.
Proof.
  induction a as [|c a IH]; simpl; [apply prefix_nil |].
  destruct (ascii_dec c c); [assumption | congruence].
Qed.

Lemma prefix_head_ne (o c : ascii) (old s : string) :
  Ascii.eqb c o = false -> String.prefix (String o old) (String c s) = false.
Proof.
  intros H. simpl. destruct (ascii_dec o c) as [-> |]; [| reflexivity].
  now rewrite Ascii.eqb_refl in H.
Qed.

Lemma replace_miss (old new : string) (c : ascii) (s : string) :
  String.prefix old (String c s) = false ->
  replace old new (String c s) = String c (replace old new s).
Proof. unfold replace. simpl. now intros ->. Qed.

Lemma replace_from_drop (old new a b : string) :
  replace_from (String.length a) old new (a +:+ b) = replace old new b.
Proof. induction a as [|c a IH]; simpl; [reflexivity | assumption]. Qed.

Lemma replace_occurrence (o : ascii) (old new rest : string) :
  replace (String o old) new (String o old +:+ rest) =
  new +:+ replace (String o old) new rest.
Proof.
  unfold replace at 1. change (String o old +:+ rest) with (String o (old +:+ rest)).
  cbn [replace_from]. change (String o (old +:+ rest)) with (String o old +:+ rest).
  rewrite prefix_app.
  replace (String.length (String o old) - 1)%nat with (String.length old)
    by (simpl; lia).
  now rewrite replace_from_drop.
Qed.

Lemma replace_skip (o : ascii) (old new l rest : string) :
  all_chars (differs o) l = true ->
  replace (String o old) new (l +:+ rest) = l +:+ replace (String o old) new rest.
Proof.
  induction l as [|c l IH]; simpl; [reflexivity |].
  intros H. apply andb_prop in H as [Hc Hl].
  rewrite replace_miss, (IH Hl); [reflexivity |].
  apply prefix_head_ne. now apply negb_true_iff.
Qed.

Lemma replace_absent (o : ascii) (old new s : string) :
  all_chars (differs o) s = true -> replace (String o old) new s = s.
Proof.
  intros H. rewrite <- (append_nil_r s) at 1. rewrite (replace_skip _ _ _ _ _ H).
  unfold replace. simpl. apply append_nil_r.
Qed.












End CompileFacts.

(** ** [match_command] *)

Module MatchFacts.

Import PyStr PyStrFacts PyRe PyReFacts CompileFacts.

Lemma match_loop_passed (before rest : list behavior) (command_lower : string) :
  Forall (passed_over command_lower) before ->
  match_loop (before ++ rest) command_lower = match_loop rest command_lower.
Proof.
  induction 1 as [|b before Hb _ IH]; simpl; [reflexivity |].
  destruct Hb as [-> | Hb]; [assumption |].
  destruct (String.eqb _ _); [assumption | now rewrite Hb].
Qed.

Lemma match_loop_found (b : behavior) (rest : list behavior)
    (command_lower : string) (groups : list string) :
  pattern_of b <> "" ->
  search (compile_pattern (pattern_of b)) command_lower = Match groups ->
  match_loop (b :: rest) command_lower =
  Ok (Some (b, extract_params (pattern_of b) groups)).
Proof.
  intros Hne Hs. simpl.
  destruct (String.eqb_spec (pattern_of b) ""); [contradiction | now rewrite Hs].
Qed.

(** The loop returns the first behaviour that is not passed over. *)
Lemma match_loop_first (before : list behavior) (b : behavior)
    (after : list behavior) (command_lower : string) (groups : list string) :
  Forall (passed_over command_lower) before ->
  pattern_of b <> "" ->
  search (compile_pattern (pattern_of b)) command_lower = Match groups ->
  match_loop (before ++ b :: after) command_lower =
  Ok (Some (b, extract_params (pattern_of b) groups)).
Proof.
  intros Hbefore Hne Hs. rewrite (match_loop_passed _ _ _ Hbefore).
  now apply match_loop_found.
Qed.



Lemma lower_fixed_app (a b : string) :
  lower (a +:+ b) = a +:+ b -> lower a = a /\ lower b = b.
Proof.
  rewrite lower_app. intros H. apply append_inv_length in H; [assumption |].
  apply lower_length.
Qed.

End MatchFacts.

Import PyStr PyStrFacts PyRe PyReFacts CompileFacts MatchFacts.

(** C1, as the code has it.  The behaviours are tried in registration
    order and the first match wins: when [b] has a non-empty pattern whose
    compiled form is found in the lower-cased command, and every behaviour
    registered before [b] is passed over (its pattern is empty, or its
    compiled form is a regular expression that is not found), [match]
    returns [b] with the parameters of that match, whatever is registered
    after [b]. *)
Theorem match_command_first_wins (before : list behavior) (b : behavior)
    (after : list behavior) (command : string) (groups : list string) :
  Forall (passed_over (lower command)) before ->
  pattern_of b <> "" ->
  search (compile_pattern (pattern_of b)) (lower command) = Match groups ->
  match_command (before ++ b :: after) command =
  Ok (Some (b, extract_params (pattern_of b) groups)).
Proof.
  intros Hbefore Hne Hs. unfold match_command. now apply match_loop_first.
Qed.

Lemma match_command_first_wins_witness :
  match_command ([idle; kill_port_b] ++ open_repo :: [kill_port_b]) "Open Solon" =
  Ok (Some (open_repo, [("repo", Some "s")])).
Proof.
  apply (match_command_first_wins [idle; kill_port_b] open_repo [kill_port_b]
           "Open Solon" ["s"]).
  - constructor; [left; reflexivity |].
    constructor; [right; vm_compute; reflexivity |]. constructor.
  - discriminate.
  - vm_compute. reflexivity.
Defined.

(** C1, as stated, fails: the compiled pattern of a behaviour with an empty
    pattern is the empty regular expression, which is found in every text,
    and yet [match] passes the behaviour over. *)
Lemma empty_pattern_is_passed_over :
  search (compile_pattern (pattern_of idle)) (lower "hi") = Match [] /\
  match_command [idle] "hi" = Ok None.
Proof. split; vm_compute; reflexivity. Qed.




(** A pattern with both placeholders: lines 96 and 98 read group 1 for
    each of them. *)
Example both_placeholders_read_group_one :
  match_command [Behavior (Some "serve") (Some "serve {repo} on {port}") None]
    "serve solon on 8080" =
  Ok (Some (Behavior (Some "serve") (Some "serve {repo} on {port}") None,
            [("repo", Some "solon"); ("port", Some "solon")])).
Proof. vm_compute. reflexivity. Qed.




(** ** [execute_behavior] and [process_command] *)

Section ProcessorFacts.

Variable env : trace -> call -> outcome bool.
Variable py_int : string -> option Z.
Variable parse_direct_command : string -> trace -> result command_result * trace.

Abbreviation body := (run_action env py_int).
Abbreviation loop := (action_loop env py_int).
Abbreviation execute := (execute_behavior env py_int).
Abbreviation process := (process_command env py_int parse_direct_command).
Abbreviation plan := (planned_calls py_int).
Abbreviation raising := (raises env py_int).
Abbreviation entry := (reported env py_int).

Lemma planned_calls_one (ps : params) (a : action) :
  plan ps [a] =
  match planned_call py_int ps a with
  | Some c => [Called c]
  | None => []
  end.
Proof.
  unfold planned_calls. simpl. now destruct (planned_call py_int ps a).
Qed.

Lemma assigned_spec (c : call) (t : trace) :
  assigned env c t =
  (match env t c, c with
   | Returned answer, _ => Ok (Some answer)
   | Raised, LaunchApp _ _ => Ok (Some false)
   | Raised, _ => CallError
   end,
   t ++ [Called c]).
Proof.
  unfold assigned, invoke, on_ok. destruct (env t c), c; reflexivity.
Qed.

(** The loop body against the plan: it makes the planned call of its
    action and no other; it raises when that call does, and leaves the
    reported entry otherwise. *)
Lemma run_action_spec (ps : params) (a : action) (t : trace) :
  body ps a t =
  (if raising ps a t then CallError else Ok (entry ps a t), t ++ plan ps [a]).
Proof.
  rewrite planned_calls_one.
  unfold run_action, raises, reported, planned_call, recognised, bool_decide.
  repeat case_decide; simpl; try congruence; rewrite ?assigned_spec;
    try (destruct (env t _); reflexivity).
  - destruct (py_int _) as [port|]; simpl.
    + rewrite assigned_spec. destruct (env t _); reflexivity.
    + now rewrite List.app_nil_r.
  - now rewrite List.app_nil_r.
Qed.

Lemma planned_calls_cons (ps : params) (a : action) (l : list action) :
  plan ps (a :: l) = plan ps [a] ++ plan ps l.
Proof.
  unfold planned_calls. simpl.
  destruct (planned_call py_int ps a); reflexivity.
Qed.

Lemma history_step (ps : params) (h : trace) (a : action) (l : list action) :
  h ++ plan ps (a :: l) = (h ++ plan ps [a]) ++ plan ps l.
Proof. now rewrite planned_calls_cons, List.app_assoc. Qed.

(** When no call raises, the loop goes through the list: the trace holds
    the planned calls of all the actions and [results] gains the reported
    entry of each. *)
Lemma loop_returns (ps : params) (todo : list action) :
  forall (rs : list (option bool)) (h : trace),
    (forall i a, todo !! i = Some a ->
       raising ps a (h ++ plan ps (take i todo)) = false) ->
    exists rs',
      loop ps todo (rs, h) = (Ok (rs ++ rs'), h ++ plan ps todo) /\
      length rs' = length todo /\
      forall i a, todo !! i = Some a ->
        rs' !! i = Some (entry ps a (h ++ plan ps (take i todo))).
Proof.
  induction todo as [|a todo IH]; intros rs h Hq.
  - exists []. simpl. rewrite !List.app_nil_r.
    split; [reflexivity |]. split; [reflexivity |]. intros i a Hi. discriminate.
  - assert (H0 := Hq 0%nat a eq_refl). simpl in H0. rewrite List.app_nil_r in H0.
    destruct (IH (rs ++ [entry ps a h]) (h ++ plan ps [a])) as (rs' & Hl & Hn & He).
    { intros i x Hx. rewrite <- history_step. apply (Hq (S i) x Hx). }
    exists (entry ps a h :: rs').
    simpl action_loop. simpl snd. simpl fst. rewrite run_action_spec, H0.
    cbn [on_ok]. rewrite Hl, (history_step ps h a todo), <- (List.app_assoc rs).
    split; [reflexivity |]. split; [simpl; now rewrite Hn |].
    intros [|i] x Hx.
    + injection Hx as <-. simpl. now rewrite List.app_nil_r.
    + change (take (S i) (a :: todo)) with (a :: take i todo).
      rewrite (history_step ps h a (take i todo)). now apply He.
Qed.


(** A loop that returns has met no call that raises. *)
Lemma loop_quiet (ps : params) (todo : list action) :
  forall (rs out : list (option bool)) (h t' : trace),
    loop ps todo (rs, h) = (Ok out, t') ->
    forall i a, todo !! i = Some a ->
      raising ps a (h ++ plan ps (take i todo)) = false.
Proof.
  induction todo as [|x todo IH]; intros rs out h t' Hl i a Hi; [discriminate |].
  simpl action_loop in Hl. simpl snd in Hl. simpl fst in Hl.
  rewrite run_action_spec in Hl.
  destruct (raising ps x h) eqn:Hx; [discriminate |]. cbn [on_ok] in Hl.
  destruct i as [|i].
  - injection Hi as <-. simpl. now rewrite List.app_nil_r.
  - change (take (S i) (x :: todo)) with (x :: take i todo).
    rewrite (history_step ps h x (take i todo)). exact (IH _ _ _ _ Hl i a Hi).
Qed.

(** What [execute_behavior] does when no call raises. *)
Lemma execute_behavior_returns (b : behavior) (ps : params) (t : trace) :
  let actions := default [] (b_actions b) in
  (forall i a, actions !! i = Some a ->
     raising ps a (t ++ plan ps (take i actions)) = false) ->
  exists rs,
    execute b ps t =
      (Ok (BehaviorResult
             match rs with
             | [] => false
             | _ => forallb truthy rs
             end (b_name b) rs),
       t ++ plan ps actions) /\
    length rs = length actions /\
    forall i a, actions !! i = Some a ->
      rs !! i = Some (entry ps a (t ++ plan ps (take i actions))).
Proof.
  cbv zeta. intros Hq.
  destruct (loop_returns ps (default [] (b_actions b)) [] t Hq) as (rs & Hl & Hn & He).
  exists rs. unfold execute_behavior. unfold trace in *. rewrite Hl. now simpl.
Qed.

(** An [execute_behavior] that returns has met no call that raises. *)
Lemma execute_behavior_quiet (b : behavior) (ps : params) (t : trace)
    (r : behavior_result) (t' : trace) :
  execute b ps t = (Ok r, t') ->
  forall i a, default [] (b_actions b) !! i = Some a ->
    raising ps a (t ++ plan ps (take i (default [] (b_actions b)))) = false.
Proof.
  unfold execute_behavior. unfold trace in *.
  destruct (loop ps (default [] (b_actions b)) ([], t)) as [[out| |] t1] eqn:Hl;
    try discriminate.
  intros _. exact (loop_quiet ps _ _ _ _ _ Hl).
Qed.



(** C5.  A command that is empty once stripped gets the fixed failure
    result; the registry is not asked and no collaborator is called: the
    trace is left as it was. *)
Theorem process_command_empty (behaviors : list behavior) (command : string)
    (t : trace) :
  strip command = "" ->
  process behaviors command t = (Ok (Failure "Empty command"), t).
Proof.
  intros H. unfold process_command. now rewrite H.
Qed.

Lemma reported_boolean (ps : params) (a : action) (t : trace) :
  if recognised a then is_boolean (entry ps a t) else entry ps a t = None.
Proof.
  unfold reported, planned_call, recognised, is_boolean, bool_decide.
  repeat case_decide; simpl; try congruence; eauto;
    destruct (py_int _); simpl; eauto.
Qed.

(** C8, as the code has it.  The result of a command that a behaviour
    handles has the behaviour's name (or null) and one entry of [results]
    for each action: a boolean for an action of a recognised type, null for
    any other.  Such a result is returned whenever no call raises. *)
Theorem behavior_result_shape (behaviors : list behavior) (command : string)
    (t : trace) (b : behavior) (ps : params) :
  let actions := default [] (b_actions b) in
  let asked := t ++ [AskedRegistry (strip command)] in
  strip command <> "" ->
  match_command behaviors (strip command) = Ok (Some (b, ps)) ->
  (forall out t', process behaviors command t = (Ok out, t') ->
     exists r,
       out = FromBehavior r /\
       behavior_name r = b_name b /\
       Forall2 (fun a o => if recognised a then is_boolean o else o = None)
         actions (results r)) /\
  ((forall i a, actions !! i = Some a ->
      raising ps a (asked ++ plan ps (take i actions)) = false) ->
   exists r t', process behaviors command t = (Ok (FromBehavior r), t')).
Proof.
  cbv zeta. intros Hne Hm. unfold process_command.
  destruct (String.eqb_spec (strip command) ""); [contradiction |]. rewrite Hm.
  split.
  - intros out t' Hp.
    destruct (execute b ps (t ++ [AskedRegistry (strip command)]))
      as [[r| |] t1] eqn:He; try discriminate.
    cbn [on_ok] in Hp. injection Hp as <- <-. exists r. split; [reflexivity |].
    destruct (execute_behavior_returns b ps _ (execute_behavior_quiet b ps _ r t1 He))
      as (rs & He' & Hn & Hr).
    rewrite He in He'. injection He' as -> _. simpl. split; [reflexivity |].
    apply Forall2_same_length_lookup. split; [now symmetry |].
    intros i a o Ha Ho. rewrite (Hr i a Ha) in Ho. injection Ho as <-.
    apply reported_boolean.
  - intros Hq. destruct (execute_behavior_returns b ps _ Hq) as (rs & He & _).
    unfold trace in *. rewrite He. cbn [on_ok]. eauto.
Qed.

End ProcessorFacts.

(** *** The processor on the sample configuration *)




Lemma process_command_empty_witness :
  process_command slack_is_down decimal_int fallback [morning] "" [] =
    (Ok (Failure "Empty command"), []) /\
  process_command slack_is_down decimal_int fallback [morning] "   " [] =
    (Ok (Failure "Empty command"), []).
Proof.
  split;
    apply (process_command_empty slack_is_down decimal_int fallback);
    reflexivity.
Defined.

Lemma behavior_result_shape_witness :
  exists r t',
    process_command slack_is_down decimal_int fallback
      [morning; ping] " Good Morning " [] = (Ok (FromBehavior r), t').
Proof.
  apply (proj2 (behavior_result_shape slack_is_down decimal_int fallback
                  [morning; ping] " Good Morning " [] morning []
                  ltac:(vm_compute; discriminate) ltac:(vm_compute; reflexivity))).
  intros i a Hi. destruct i as [|[|[|i]]]; simpl in Hi; try discriminate;
    injection Hi as <-; reflexivity.
Defined.

(** C8, as stated, fails: an action of a type that [execute_behavior] does
    not know leaves [None] in [results], which is null on the wire and not
    a boolean. *)
Lemma unknown_action_type_yields_null :
  fst (process_command slack_is_down decimal_int fallback [ping] "ping" []) =
    Ok (FromBehavior (BehaviorResult false (Some "ping") [Some true; None])) /\
  ~ Forall is_boolean [Some true; None].
Proof.
  split; [vm_compute; reflexivity |].
  intros H. apply Forall_cons in H as [_ H]. apply Forall_cons in H as [[v Hv] _].
  discriminate.
Qed.

(** ** The mutators of the registry *)

Module RegistryFacts.

Lemma new_rule_app (app behavior : string) (maximize : bool) (old : rule) :
  (new_rule app behavior maximize ∪ old) !! "app" = Some (SStr app).
Proof. apply lookup_union_Some_l. reflexivity. Qed.

Lemma new_rule_behavior (app behavior : string) (maximize : bool) (old : rule) :
  (new_rule app behavior maximize ∪ old) !! "behavior" = Some (SStr behavior).
Proof. apply lookup_union_Some_l. reflexivity. Qed.

Lemma new_rule_maximize (app behavior : string) (maximize : bool) (old : rule) :
  (new_rule app behavior maximize ∪ old) !! "maximize" = Some (SBool maximize).
Proof. apply lookup_union_Some_l. reflexivity. Qed.

Lemma has_app_new (app behavior : string) (maximize : bool) (old : rule) :
  has_app app (new_rule app behavior maximize ∪ old) = true.
Proof. unfold has_app. rewrite new_rule_app. now apply bool_decide_eq_true. Qed.

Lemma has_app_new_other (app app' behavior : string) (maximize : bool) (old : rule) :
  app' <> app -> has_app app' (new_rule app behavior maximize ∪ old) = false.
Proof.
  intros Hne. unfold has_app. rewrite new_rule_app.
  apply bool_decide_eq_false. congruence.
Qed.

Lemma has_app_functional (app app' : string) (x : rule) :
  has_app app x = true -> app' <> app -> has_app app' x = false.
Proof.
  unfold has_app. intros H Hne. apply bool_decide_eq_true in H.
  apply bool_decide_eq_false. rewrite H. congruence.
Qed.

Section UpdateFirst.

Context {A : Type} (p : A -> bool) (f : A -> A).

Lemma length_update_first (l : list A) :
  length (update_first p f l) = length l.
Proof.
  induction l as [|x l IH]; simpl; [reflexivity |].
  destruct (p x); simpl; [reflexivity | now rewrite IH].
Qed.

Lemma filter_update_first (l : list A) :
  (forall x, p (f x) = true) ->
  List.filter p (update_first p f l) =
  match List.filter p l with
  | [] => []
  | x :: rest => f x :: rest
  end.
Proof.
  intros Hf. induction l as [|x l IH]; simpl; [reflexivity |].
  destruct (p x) eqn:Hx; simpl.
  - now rewrite Hf.
  - now rewrite Hx.
Qed.

Lemma filter_update_first_other (q : A -> bool) (l : list A) :
  (forall x, p x = true -> q x = false /\ q (f x) = false) ->
  List.filter q (update_first p f l) = List.filter q l.
Proof.
  intros Hq. induction l as [|x l IH]; simpl; [reflexivity |].
  destruct (p x) eqn:Hx; simpl.
  - destruct (Hq x Hx) as [-> ->]. reflexivity.
  - now rewrite IH.
Qed.

Lemma filter_nil_lookup (l : list A) (i : nat) (x : A) :
  List.filter p l = [] -> l !! i = Some x -> p x = false.
Proof.
  revert i. induction l as [|y l IH]; intros i Hf Hi; [discriminate |].
  simpl in Hf. destruct (p y) eqn:Hy; [discriminate |].
  destruct i as [|i]; simpl in Hi; [now injection Hi as <- | eauto].
Qed.

(** When at most one element satisfies [p], [update_first] changes that
    element where it stands and no other. *)
Lemma lookup_update_first (l : list A) (i : nat) (x : A) :
  (length (List.filter p l) <= 1)%nat ->
  l !! i = Some x ->
  update_first p f l !! i = Some (if p x then f x else x).
Proof.
  revert i. induction l as [|y l IH]; intros i Hl Hi; [discriminate |].
  simpl in *. destruct (p y) eqn:Hy.
  - destruct i as [|i]; simpl in *.
    + injection Hi as <-. now rewrite Hy.
    + assert (Hnil : List.filter p l = [])
        by (destruct (List.filter p l); [reflexivity | simpl in Hl; lia]).
      now rewrite (filter_nil_lookup l i x Hnil Hi).
  - destruct i as [|i]; simpl in *.
    + injection Hi as <-. now rewrite Hy.
    + now apply IH.
Qed.

End UpdateFirst.

(** The rules for the app itself after [add_rule_to]. *)
Lemma rules_for_add_same (app behavior : string) (maximize : bool) (l : list rule) :
  rules_for app (add_rule_to app behavior maximize l) =
  match rules_for app l with
  | [] => [new_rule app behavior maximize]
  | x :: rest => (new_rule app behavior maximize ∪ x) :: rest
  end.
Proof.
  unfold rules_for, add_rule_to.
  destruct (List.filter (has_app app) l) as [|x rest] eqn:E.
  - rewrite List.filter_app, E. simpl.
    assert (H : has_app app (new_rule app behavior maximize) = true)
      by (now apply bool_decide_eq_true).
    now rewrite H.
  - rewrite filter_update_first, E; [reflexivity |].
    intros y. apply has_app_new.
Qed.

(** The rules for any other app are left as they were. *)
Lemma rules_for_add_other (app app' behavior : string) (maximize : bool)
    (l : list rule) :
  app' <> app ->
  rules_for app' (add_rule_to app behavior maximize l) = rules_for app' l.
Proof.
  intros Hne. unfold rules_for, add_rule_to.
  destruct (List.filter (has_app app) l) as [|x rest] eqn:E.
  - rewrite List.filter_app. simpl.
    assert (H : has_app app' (new_rule app behavior maximize) = false)
      by (apply bool_decide_eq_false; vm_compute; congruence).
    rewrite H. apply List.app_nil_r.
  - apply filter_update_first_other. intros y Hy. split.
    + now apply (has_app_functional app).
    + now apply has_app_new_other.
Qed.

Lemma add_display_rule_registry (display app behavior : string) (maximize : bool)
    (r : registry) (d : disk) :
  registry_after (add_display_rule display app behavior maximize r d) =
  Registry (behaviors r)
    (AppRules (startup (rules r))
       (Some (<[display := add_rule_to app behavior maximize (get_display_rules display r)]>
                (default ∅ (display_rules (rules r)))))).
Proof.
  unfold add_display_rule. destruct (save_app_rules _ d). reflexivity.
Qed.

Lemma get_display_rules_add (display display' app behavior : string)
    (maximize : bool) (r : registry) (d : disk) :
  get_display_rules display'
    (registry_after (add_display_rule display app behavior maximize r d)) =
  if decide (display = display')
  then add_rule_to app behavior maximize (get_display_rules display r)
  else get_display_rules display' r.
Proof.
  rewrite add_display_rule_registry. unfold get_display_rules at 1. simpl.
  case_decide as Hd.
  - subst. now rewrite lookup_insert_eq.
  - now rewrite lookup_insert_ne.
Qed.

End RegistryFacts.

Import RegistryFacts.

(** C6.  [add_display_rule] keeps at most one rule for every display and
    app.  After the call the display has exactly one rule for the app, with
    the behaviour and the maximize flag of the call; a rule that the app
    had is updated where it stands and every other rule keeps its place; a
    second call for the same display and app leaves the list as long as it
    was, with one rule for the app that carries the values of the second
    call. *)
Theorem add_display_rule_one_rule_per_app (display app behavior : string)
    (maximize : bool) (r : registry) (d : disk) :
  one_rule_per_app r ->
  let r1 := registry_after (add_display_rule display app behavior maximize r d) in
  one_rule_per_app r1 /\
  (exists ru,
     rules_for app (get_display_rules display r1) = [ru] /\
     ru !! "behavior" = Some (SStr behavior) /\
     ru !! "maximize" = Some (SBool maximize)) /\
  (forall i x,
     get_display_rules display r !! i = Some x ->
     get_display_rules display r1 !! i =
     Some (if has_app app x then new_rule app behavior maximize ∪ x else x)) /\
  (forall behavior' maximize' d',
     let r2 := registry_after (add_display_rule display app behavior' maximize' r1 d') in
     length (get_display_rules display r2) = length (get_display_rules display r1) /\
     exists ru,
       rules_for app (get_display_rules display r2) = [ru] /\
       ru !! "behavior" = Some (SStr behavior') /\
       ru !! "maximize" = Some (SBool maximize')).
Proof.
  intros Hinv r1.
  assert (Hget : get_display_rules display r1 =
                 add_rule_to app behavior maximize (get_display_rules display r)).
  { subst r1. rewrite get_display_rules_add. now rewrite decide_True. }
  assert (Hone : exists ru,
             rules_for app (get_display_rules display r1) = [ru] /\
             ru !! "behavior" = Some (SStr behavior) /\
             ru !! "maximize" = Some (SBool maximize)).
  { rewrite Hget, rules_for_add_same. specialize (Hinv display app).
    destruct (rules_for app (get_display_rules display r)) as [|x [|y rest]].
    - exists (new_rule app behavior maximize). now repeat split.
    - exists (new_rule app behavior maximize ∪ x).
      split; [reflexivity |]. split; [apply new_rule_behavior | apply new_rule_maximize].
    - simpl in Hinv. lia. }
  assert (Hinv1 : one_rule_per_app r1).
  { intros display' app'. subst r1. rewrite get_display_rules_add.
    case_decide as Hd; [subst display' | apply Hinv].
    destruct (decide (app' = app)) as [-> | Hne].
    - rewrite <- Hget. destruct Hone as (ru & -> & _). simpl. lia.
    - rewrite rules_for_add_other by assumption. apply Hinv. }
  split; [assumption |]. split; [assumption |]. split.
  - intros i x Hi. rewrite Hget. unfold add_rule_to.
    specialize (Hinv display app). unfold rules_for in Hinv.
    destruct (List.filter (has_app app) (get_display_rules display r)) as [|y rest] eqn:E.
    + rewrite lookup_app_l by (now apply lookup_lt_Some in Hi).
      now rewrite (filter_nil_lookup _ _ _ _ E Hi).
    + apply lookup_update_first; [rewrite E; exact Hinv | assumption].
  - intros behavior' maximize' d' r2.
    assert (Hget2 : get_display_rules display r2 =
                    add_rule_to app behavior' maximize' (get_display_rules display r1)).
    { subst r2. rewrite get_display_rules_add. now rewrite decide_True. }
    destruct Hone as (ru & Hru & _). split.
    + rewrite Hget2. unfold add_rule_to. unfold rules_for in Hru. rewrite Hru.
      apply length_update_first.
    + rewrite Hget2, rules_for_add_same, Hru.
      exists (new_rule app behavior' maximize' ∪ ru).
      split; [reflexivity |]. split; [apply new_rule_behavior | apply new_rule_maximize].
Qed.

Lemma fresh_one_rule_per_app : one_rule_per_app fresh.
Proof.
  intros display app. unfold get_display_rules, fresh, reload. simpl.
  rewrite !lookup_insert. repeat case_decide; simpl; try lia.
  rewrite lookup_singleton. case_decide; simpl; lia.
Qed.

Lemma add_display_rule_one_rule_per_app_witness :
  let r1 := registry_after (add_display_rule "w1" "Chrome" "maximize" true fresh empty_disk) in
  one_rule_per_app r1 /\
  exists ru,
    rules_for "Chrome" (get_display_rules "w1" r1) = [ru] /\
    ru !! "behavior" = Some (SStr "maximize") /\
    ru !! "maximize" = Some (SBool true).
Proof.
  destruct (add_display_rule_one_rule_per_app "w1" "Chrome" "maximize" true
              fresh empty_disk fresh_one_rule_per_app) as (H1 & H2 & _).
  split; assumption.
Defined.

Module StartupFacts.

Lemma mem_In (app : string) (l : list string) : mem app l = true <-> In app l.
Proof.
  unfold mem. rewrite existsb_exists. split.
  - intros (x & Hx & E). apply String.eqb_eq in E. now subst.
  - intros H. exists app. split; [assumption | apply String.eqb_refl].
Qed.

Lemma mem_not_In (app : string) (l : list string) : mem app l = false -> ~ In app l.
Proof. intros H Hin. apply mem_In in Hin. congruence. Qed.

Lemma NoDup_snoc (l : list string) (a : string) :
  List.NoDup l -> ~ In a l -> List.NoDup (l ++ [a]).
Proof.
  induction 1 as [|x l Hx Hl IH]; intros Ha; simpl.
  - constructor; [intros [] | constructor].
  - constructor.
    + rewrite in_app_iff. intros [H | [H | []]]; [contradiction |].
      subst. apply Ha. now left.
    + apply IH. intros H. apply Ha. now right.
Qed.

Lemma count_occ_snoc (l : list string) (a : string) :
  ~ In a l -> count_occ string_dec (l ++ [a]) a = 1%nat.
Proof.
  intros H. rewrite count_occ_app. apply (count_occ_not_In string_dec) in H.
  rewrite H. simpl. destruct (string_dec a a); [reflexivity | congruence].
Qed.

(** Lines 155-159 read the list that [startup_keep_open] reads. *)
Lemma kept_eq (r : registry) :
  default [] (keep_open (default (StartupRules (Some []) (Some (SBool true)))
                           (startup (rules r)))) = startup_keep_open r.
Proof.
  unfold startup_keep_open, get_startup_rules.
  destruct (startup (rules r)); reflexivity.
Qed.

(** An app that is kept already: nothing changes and nothing is written. *)
Lemma add_startup_app_present (app : string) (r : registry) (d : disk) :
  mem app (startup_keep_open r) = true ->
  add_startup_app app r d = Mutation tt r d.
Proof.
  unfold add_startup_app. rewrite kept_eq. intros H. rewrite H.
  destruct r as [bs [[[ko co]|] dr]]; simpl in *; [| discriminate].
  destruct ko as [kept|]; simpl in *; [reflexivity | discriminate].
Qed.

(** A new app goes to the end of the list, and the structure is saved. *)
Lemma add_startup_app_absent (app : string) (r : registry) (d : disk) :
  mem app (startup_keep_open r) = false ->
  exists ar,
    add_startup_app app r d =
      Mutation tt (Registry (behaviors r) ar) (snd (save_app_rules ar d)) /\
    startup_keep_open (Registry (behaviors r) ar) = startup_keep_open r ++ [app].
Proof.
  unfold add_startup_app. rewrite kept_eq. intros H. rewrite H.
  exists (AppRules
            (Some (StartupRules (Some (startup_keep_open r ++ [app]))
                     (close_others
                        (default (StartupRules (Some []) (Some (SBool true)))
                           (startup (rules r))))))
            (display_rules (rules r))).
  split.
  - destruct (save_app_rules _ d). reflexivity.
  - reflexivity.
Qed.

Lemma save_app_rules_stores (ar : app_rules) (d : disk) :
  next_write_succeeds d -> app_rules_file (snd (save_app_rules ar d)) = Stored ar.
Proof.
  unfold next_write_succeeds, save_app_rules.
  destruct (faults d) as [|[| |] later]; simpl; intros H;
    solve [reflexivity | destruct H].
Qed.

End StartupFacts.

Import StartupFacts.

(** C7.  On a registry that holds the app rules as they are stored, with no
    app twice in [keep_open], and with a storage that takes the write:
    after [add_startup_app], once or twice, a reload finds the app exactly
    once in [keep_open], and the list has no duplicate, in memory and once
    reloaded. *)
Theorem add_startup_app_round_trip (app : string) (r : registry) (d : disk) :
  rules r = load_app_rules d ->
  List.NoDup (startup_keep_open r) ->
  next_write_succeeds d ->
  let once := add_startup_app app r d in
  let twice := add_startup_app app (registry_after once) (disk_after once) in
  count_occ string_dec (startup_keep_open (reload (disk_after once))) app = 1%nat /\
  count_occ string_dec (startup_keep_open (reload (disk_after twice))) app = 1%nat /\
  List.NoDup (startup_keep_open (registry_after once)) /\
  List.NoDup (startup_keep_open (registry_after twice)) /\
  List.NoDup (startup_keep_open (reload (disk_after once))) /\
  List.NoDup (startup_keep_open (reload (disk_after twice))).
Proof.
  intros Hsync Hnd Hw once twice.
  assert (Hload : forall d0, startup_keep_open (reload d0) =
                    startup_keep_open (Registry [] (load_app_rules d0)))
    by reflexivity.
  destruct (mem app (startup_keep_open r)) eqn:Hm.
  - assert (H1 : once = Mutation tt r d) by now apply add_startup_app_present.
    assert (H2 : twice = Mutation tt r d).
    { subst twice. rewrite H1. simpl. now apply add_startup_app_present. }
    rewrite H1, H2. simpl. rewrite Hload, <- Hsync.
    change (startup_keep_open (Registry [] (rules r))) with (startup_keep_open r).
    apply mem_In in Hm.
    assert (Hc := proj1 (List.NoDup_count_occ' string_dec _) Hnd app Hm).
    repeat split; assumption.
  - destruct (add_startup_app_absent app r d Hm) as (ar & H1 & Hk).
    assert (Hm' : mem app (startup_keep_open (Registry (behaviors r) ar)) = true)
      by (rewrite Hk; apply mem_In, in_app_iff; right; now left).
    assert (H2 : twice = Mutation tt (Registry (behaviors r) ar) (snd (save_app_rules ar d))).
    { subst twice once. rewrite H1. simpl. now apply add_startup_app_present. }
    fold once in H1. rewrite H1, H2. simpl. rewrite Hload.
    unfold load_app_rules. rewrite (save_app_rules_stores _ _ Hw).
    change (startup_keep_open (Registry [] ar))
      with (startup_keep_open (Registry (behaviors r) ar)).
    rewrite Hk. apply mem_not_In in Hm.
    assert (Hc := count_occ_snoc _ _ Hm).
    assert (Hn := NoDup_snoc _ _ Hnd Hm).
    repeat split; assumption.
Qed.

Lemma add_startup_app_round_trip_witness :
  let once := add_startup_app "Foo" fresh empty_disk in
  let twice := add_startup_app "Foo" (registry_after once) (disk_after once) in
  count_occ string_dec (startup_keep_open (reload (disk_after once))) "Foo" = 1%nat /\
  count_occ string_dec (startup_keep_open (reload (disk_after twice))) "Foo" = 1%nat.
Proof.
  destruct (add_startup_app_round_trip "Foo" fresh empty_disk)
    as (H1 & H2 & _).
  - reflexivity.
  - constructor.
  - exact I.
  - split; assumption.
Defined.

(** C10, as the code has it.  What a mutator hands back and the registry it
    leaves do not depend on the disk: a failed write changes neither, so
    the change in memory is kept and the caller is not told.  Either the
    mutator changes nothing and writes nothing, or it hands the whole
    structure, as it is after the change, to [save_app_rules]. *)
Theorem mutators_persist_without_reporting (m : mutator) (r : registry)
    (d d' : disk) :
  let out := run_mutator m r d in
  returned out = returned (run_mutator m r d') /\
  registry_after out = registry_after (run_mutator m r d') /\
  behaviors (registry_after out) = behaviors r /\
  ((registry_after out = r /\ disk_after out = d) \/
   disk_after out = snd (save_app_rules (rules (registry_after out)) d)).
Proof.
  destruct m as [display app behavior maximize | display app | app | app];
    simpl run_mutator.
  - unfold add_display_rule.
    destruct (save_app_rules _ d) as [ok1 d1] eqn:E1.
    destruct (save_app_rules _ d') as [ok2 d2].
    simpl. repeat split. right. now rewrite E1.
  - unfold remove_display_rule.
    destruct (display_rules (rules r)) as [all|];
      [| simpl; repeat split; left; split; reflexivity].
    destruct (all !! display) as [current|];
      [| simpl; repeat split; left; split; reflexivity].
    destruct (save_app_rules _ d) as [ok1 d1] eqn:E1.
    destruct (save_app_rules _ d') as [ok2 d2].
    simpl. repeat split. right. now rewrite E1.
  - destruct (mem app (startup_keep_open r)) eqn:Hm.
    + rewrite !(add_startup_app_present _ _ _ Hm).
      simpl. repeat split. left. split; reflexivity.
    + unfold add_startup_app. rewrite kept_eq, Hm.
      destruct (save_app_rules _ d) as [ok1 d1] eqn:E1.
      destruct (save_app_rules _ d') as [ok2 d2].
      simpl. repeat split. right. now rewrite E1.
  - unfold remove_startup_app.
    destruct (startup (rules r)) as [s|];
      [| simpl; repeat split; left; split; reflexivity].
    destruct (keep_open s) as [kept|];
      [| simpl; repeat split; left; split; reflexivity].
    destruct (save_app_rules _ d) as [ok1 d1] eqn:E1.
    destruct (save_app_rules _ d') as [ok2 d2].
    simpl. repeat split. right. now rewrite E1.
Qed.

Lemma mutators_persist_without_reporting_witness :
  registry_after (run_mutator (AddStartupApp "Foo") fresh read_only_disk) =
  registry_after (run_mutator (AddStartupApp "Foo") fresh empty_disk) /\
  startup_keep_open (registry_after (run_mutator (AddStartupApp "Foo") fresh read_only_disk)) =
  ["Foo"].
Proof.
  split; [| reflexivity].
  apply (mutators_persist_without_reporting (AddStartupApp "Foo") fresh
           read_only_disk empty_disk).
Defined.

(** C10, as stated, fails: when the write fails, [save_app_rules] returns
    [False] and the mutator drops it.  The caller gets [None] and the same
    registry as after a write that went through; the file is not
    written. *)
Lemma save_failure_is_not_reported :
  let failed := add_startup_app "Foo" fresh read_only_disk in
  let stored := add_startup_app "Foo" fresh empty_disk in
  fst (save_app_rules (rules (registry_after failed)) read_only_disk) = false /\
  app_rules_file (disk_after failed) = Missing /\
  app_rules_file (disk_after stored) = Stored (rules (registry_after stored)) /\
  returned failed = returned stored /\
  registry_after failed = registry_after stored.
Proof. cbv zeta. repeat split; vm_compute; reflexivity. Qed.

(** ** More on the mutators *)

Module MutatorFacts.

Lemma remove_display_rule_list (display app : string) (r : registry) (d : disk) :
  get_display_rules display (registry_after (remove_display_rule display app r d)) =
  List.filter (not_for app) (get_display_rules display r).
Proof.
  unfold remove_display_rule, get_display_rules.
  destruct r as [bs [st [all|]]]; simpl; [| now rewrite lookup_empty].
  destruct (all !! display) as [current|] eqn:El; simpl.
  - destruct (save_app_rules _ d). simpl. now rewrite lookup_insert_eq.
  - now rewrite El.
Qed.

Lemma remove_display_rule_other (display display' app : string) (r : registry)
    (d : disk) :
  display' <> display ->
  get_display_rules display' (registry_after (remove_display_rule display app r d)) =
  get_display_rules display' r.
Proof.
  intros Hne. unfold remove_display_rule, get_display_rules.
  destruct r as [bs [st [all|]]]; simpl; [| reflexivity].
  destruct (all !! display) as [current|] eqn:El; simpl; [| reflexivity].
  destruct (save_app_rules _ d). simpl. now rewrite lookup_insert_ne.
Qed.

Lemma filter_not_for_add (app behavior : string) (maximize : bool) (l : list rule) :
  List.filter (not_for app) (add_rule_to app behavior maximize l) =
  List.filter (not_for app) l.
Proof.
  unfold add_rule_to.
  destruct (List.filter (has_app app) l) as [|x rest] eqn:E.
  - rewrite List.filter_app. simpl. unfold not_for at 2.
    assert (H : has_app app (new_rule app behavior maximize) = true)
      by (now apply bool_decide_eq_true).
    rewrite H. apply List.app_nil_r.
  - apply filter_update_first_other. intros y Hy. unfold not_for.
    now rewrite Hy, has_app_new.
Qed.

Lemma filter_has_app_not_for (app : string) (l : list rule) :
  List.filter (has_app app) (List.filter (not_for app) l) = [].
Proof.
  induction l as [|x l IH]; simpl; [reflexivity |].
  unfold not_for at 1. destruct (has_app app x) eqn:E; simpl; [assumption |].
  now rewrite E.
Qed.

Lemma filter_other_app (app app' : string) (l : list rule) :
  app' <> app ->
  List.filter (has_app app') (List.filter (not_for app) l) = List.filter (has_app app') l.
Proof.
  intros Hne. induction l as [|x l IH]; simpl; [reflexivity |].
  unfold not_for at 1. destruct (has_app app x) eqn:E; simpl.
  - now rewrite (has_app_functional app app' x E Hne).
  - now rewrite IH.
Qed.

Lemma remove_startup_app_list (app : string) (r : registry) (d : disk) :
  startup_keep_open (registry_after (remove_startup_app app r d)) =
  List.filter (other_than app) (startup_keep_open r).
Proof.
  unfold remove_startup_app, startup_keep_open, get_startup_rules.
  destruct r as [bs [[[[kept|] co]|] dr]]; simpl; try reflexivity.
  destruct (save_app_rules _ d). reflexivity.
Qed.

Lemma add_startup_app_list (app : string) (r : registry) (d : disk) :
  startup_keep_open (registry_after (add_startup_app app r d)) =
  if mem app (startup_keep_open r) then startup_keep_open r
  else startup_keep_open r ++ [app].
Proof.
  destruct (mem app (startup_keep_open r)) eqn:Hm.
  - now rewrite (add_startup_app_present _ _ _ Hm).
  - destruct (add_startup_app_absent app r d Hm) as (ar & -> & Hk). exact Hk.
Qed.

Lemma filter_other_than_id (app : string) (l : list string) :
  ~ In app l -> List.filter (other_than app) l = l.
Proof.
  induction l as [|a l IH]; simpl; [reflexivity |]. intros H.
  unfold other_than at 1. destruct (String.eqb_spec a app) as [-> | Hne]; simpl.
  - exfalso. apply H. now left.
  - rewrite IH; [reflexivity |]. intros Hin. apply H. now right.
Qed.

Lemma filter_other_than_absent (app : string) (l : list string) :
  ~ In app (List.filter (other_than app) l).
Proof.
  intros H. apply filter_In in H as [_ H]. unfold other_than in H.
  now rewrite String.eqb_refl in H.
Qed.

Lemma filter_other_than_idem (app : string) (l : list string) :
  List.filter (other_than app) (List.filter (other_than app) l) =
  List.filter (other_than app) l.
Proof. apply filter_other_than_id, filter_other_than_absent. Qed.

End MutatorFacts.

Import MutatorFacts.

(** X1.  [remove_display_rule] takes every rule of the app out of the list
    of the display, duplicates included, and leaves the other rules of that
    list in their order and the lists of the other displays as they were.
    A display or a [display_rules] section that is absent is not
    created. *)
Theorem remove_display_rule_removes_app (display app : string) (r : registry)
    (d : disk) :
  let r1 := registry_after (remove_display_rule display app r d) in
  get_display_rules display r1 = List.filter (not_for app) (get_display_rules display r) /\
  rules_for app (get_display_rules display r1) = [] /\
  (forall app', app' <> app ->
     rules_for app' (get_display_rules display r1) =
     rules_for app' (get_display_rules display r)) /\
  (forall display', display' <> display ->
     get_display_rules display' r1 = get_display_rules display' r) /\
  (writes (RemoveDisplayRule display app) r = false -> r1 = r).
Proof.
  intros r1. subst r1. rewrite remove_display_rule_list. unfold rules_for.
  split; [reflexivity |]. split; [apply filter_has_app_not_for |].
  split; [intros app' Hne; now apply filter_other_app |].
  split; [intros display' Hne; now apply remove_display_rule_other |].
  unfold writes, remove_display_rule.
  destruct (display_rules (rules r)) as [all|]; [| reflexivity].
  destruct (all !! display) as [current|]; [| reflexivity].
  intros H. apply bool_decide_eq_false in H. exfalso. apply H. eauto.
Qed.

(** X2.  Removing a display rule undoes adding it: after [add_display_rule]
    and then [remove_display_rule] for the same display and app, the list
    of the display holds the rules it had for the other apps, in their
    order.  Adding after removing leaves, at the end of the list, a rule
    that has the three keys of the call and nothing else. *)
Theorem add_then_remove_display_rule (display app behavior : string)
    (maximize : bool) (r : registry) (d d' : disk) :
  let added := registry_after (add_display_rule display app behavior maximize r d) in
  let removed := registry_after (remove_display_rule display app r d) in
  get_display_rules display (registry_after (remove_display_rule display app added d')) =
    List.filter (not_for app) (get_display_rules display r) /\
  get_display_rules display (registry_after (add_display_rule display app behavior maximize removed d')) =
    List.filter (not_for app) (get_display_rules display r) ++
    [new_rule app behavior maximize].
Proof.
  cbv zeta. split.
  - rewrite remove_display_rule_list, get_display_rules_add, decide_True by reflexivity.
    apply filter_not_for_add.
  - rewrite get_display_rules_add, decide_True by reflexivity.
    rewrite remove_display_rule_list. unfold add_rule_to.
    now rewrite filter_has_app_not_for.
Qed.

(** X3.  [remove_startup_app] takes every occurrence of the app out of
    [keep_open] and leaves the other apps in their order; a [startup]
    section or a [keep_open] list that is absent is not created. *)
Theorem remove_startup_app_removes_app (app : string) (r : registry) (d : disk) :
  let r1 := registry_after (remove_startup_app app r d) in
  startup_keep_open r1 = List.filter (other_than app) (startup_keep_open r) /\
  ~ In app (startup_keep_open r1) /\
  (forall a, a <> app ->
     count_occ string_dec (startup_keep_open r1) a =
     count_occ string_dec (startup_keep_open r) a) /\
  (writes (RemoveStartupApp app) r = false -> r1 = r).
Proof.
  intros r1. subst r1. rewrite remove_startup_app_list.
  split; [reflexivity |]. split; [apply filter_other_than_absent |]. split.
  - intros a Hne. induction (startup_keep_open r) as [|x l IH]; simpl; [reflexivity |].
    unfold other_than at 1. destruct (String.eqb_spec x app) as [-> | Hx]; simpl.
    + destruct (string_dec app a); [congruence | assumption].
    + destruct (string_dec x a); now rewrite IH.
  - unfold writes, remove_startup_app.
    destruct (startup (rules r)) as [s|]; [| reflexivity].
    destruct (keep_open s) as [kept|]; [| reflexivity].
    intros H. apply bool_decide_eq_false in H. exfalso. apply H. eauto.
Qed.

(** X4.  How the startup mutators compose.  A second [add_startup_app] for
    the same app changes neither the registry nor the disk.  Removing
    after adding leaves [keep_open] without the app, and adding after
    removing leaves the app once, at the end. *)
Theorem startup_mutators_compose (app : string) (r : registry) (d d' : disk) :
  let once := add_startup_app app r d in
  let removed := registry_after (remove_startup_app app r d) in
  add_startup_app app (registry_after once) (disk_after once) =
    Mutation tt (registry_after once) (disk_after once) /\
  startup_keep_open (registry_after (remove_startup_app app (registry_after once) d')) =
    List.filter (other_than app) (startup_keep_open r) /\
  startup_keep_open (registry_after (add_startup_app app removed d')) =
    List.filter (other_than app) (startup_keep_open r) ++ [app].
Proof.
  cbv zeta. split; [| split].
  - apply add_startup_app_present. rewrite add_startup_app_list.
    destruct (mem app (startup_keep_open r)) eqn:Hm; [assumption |].
    apply mem_In, in_app_iff. right. now left.
  - rewrite remove_startup_app_list, add_startup_app_list.
    destruct (mem app (startup_keep_open r)); [reflexivity |].
    rewrite List.filter_app. simpl. unfold other_than at 2.
    rewrite String.eqb_refl. simpl. apply List.app_nil_r.
  - rewrite add_startup_app_list, remove_startup_app_list.
    destruct (mem app (List.filter (other_than app) (startup_keep_open r))) eqn:Hm;
      [| reflexivity].
    apply mem_In in Hm. now apply filter_other_than_absent in Hm.
Qed.

Module WriteFacts.

(** What a mutator does to the disk: nothing when it returns early, one
    call of [save_app_rules] on the structure it leaves otherwise. *)
Lemma run_mutator_cases (m : mutator) (r : registry) (d : disk) :
  let out := run_mutator m r d in
  behaviors (registry_after out) = behaviors r /\
  if writes m r
  then disk_after out = snd (save_app_rules (rules (registry_after out)) d)
  else registry_after out = r /\ disk_after out = d.
Proof.
  destruct m as [display app behavior maximize | display app | app | app];
    simpl run_mutator; simpl writes.
  - unfold add_display_rule. destruct (save_app_rules _ d) as [ok d1] eqn:E.
    simpl. now rewrite E.
  - unfold remove_display_rule.
    destruct (display_rules (rules r)) as [all|]; [| now simpl].
    destruct (all !! display) as [current|] eqn:El.
    + rewrite bool_decide_eq_true_2 by eauto.
      destruct (save_app_rules _ d) as [ok d1] eqn:E. simpl. now rewrite E.
    + rewrite bool_decide_eq_false_2 by (intros [x Hx]; discriminate). now simpl.
  - destruct (mem app (startup_keep_open r)) eqn:Hm; simpl.
    + now rewrite (add_startup_app_present _ _ _ Hm).
    + unfold add_startup_app. rewrite kept_eq, Hm.
      destruct (save_app_rules _ d) as [ok d1] eqn:E. simpl. now rewrite E.
  - unfold remove_startup_app.
    destruct (startup (rules r)) as [s|]; [| now simpl].
    destruct (keep_open s) as [kept|] eqn:Ek.
    + rewrite bool_decide_eq_true_2 by eauto.
      destruct (save_app_rules _ d) as [ok d1] eqn:E. simpl. now rewrite E.
    + rewrite bool_decide_eq_false_2 by (intros [x Hx]; discriminate). now simpl.
Qed.

Lemma save_app_rules_disk (ar : app_rules) (d : disk) :
  behaviors_file (snd (save_app_rules ar d)) = behaviors_file d /\
  faults (snd (save_app_rules ar d)) = tail (faults d).
Proof.
  unfold save_app_rules. destruct (faults d) as [|[| |] later]; now simpl.
Qed.

Lemma save_app_rules_without_fault (ar : app_rules) (d : disk) :
  faults d = [] ->
  snd (save_app_rules ar d) = Disk (behaviors_file d) (Stored ar) [].
Proof. unfold save_app_rules. now intros ->. Qed.

End WriteFacts.

Import WriteFacts.

(** X5.  On a disk whose writes go through, memory and storage do not
    drift apart: when the registry is what a reload of the disk gives,
    then after any sequence of mutators a reload gives back the registry
    as it is in memory. *)
Theorem mutations_survive_reload (ms : list mutator) (r : registry) (d : disk) :
  faults d = [] ->
  r = reload d ->
  let '(r', d') := run_mutators ms r d in
  reload d' = r' /\ faults d' = [].
Proof.
  revert r d. induction ms as [|m ms IH]; intros r d Hf Hr; simpl.
  - now subst.
  - apply IH.
    + destruct (run_mutator_cases m r d) as [_ H].
      destruct (writes m r).
      * rewrite H, (save_app_rules_without_fault _ _ Hf). reflexivity.
      * destruct H as [_ ->]. assumption.
    + destruct (run_mutator_cases m r d) as [Hb H].
      destruct (writes m r).
      * rewrite H, (save_app_rules_without_fault _ _ Hf).
        unfold reload, load_behaviors, load_app_rules. simpl.
        destruct (registry_after (run_mutator m r d)) as [bs ar]. simpl in *.
        subst bs r. reflexivity.
      * destruct H as [-> ->]. assumption.
Qed.

Lemma mutations_survive_reload_witness :
  let '(r', d') :=
    run_mutators [AddStartupApp "Mail"; AddDisplayRule "w1" "Mail" "maximize" true;
                  RemoveStartupApp "Mail"; AddStartupApp "Notes"]
      fresh empty_disk in
  reload d' = r' /\ faults d' = [].
Proof.
  apply (mutations_survive_reload
           [AddStartupApp "Mail"; AddDisplayRule "w1" "Mail" "maximize" true;
            RemoveStartupApp "Mail"; AddStartupApp "Notes"] fresh empty_disk);
    reflexivity.
Defined.

(** X6.  A mutator keeps to its own section.  None touches the behaviours;
    the display mutators leave the [startup] section as it was; the startup
    mutators leave [display_rules] as it was and do not change what
    [close_others] reads as. *)
Theorem mutators_keep_to_their_section (m : mutator) (r : registry) (d : disk) :
  let r1 := registry_after (run_mutator m r d) in
  behaviors r1 = behaviors r /\
  match m with
  | AddDisplayRule _ _ _ _ | RemoveDisplayRule _ _ =>
      startup (rules r1) = startup (rules r)
  | AddStartupApp _ | RemoveStartupApp _ =>
      display_rules (rules r1) = display_rules (rules r) /\
      startup_close_others r1 = startup_close_others r
  end.
Proof.
  destruct m as [display app behavior maximize | display app | app | app];
    simpl run_mutator.
  - unfold add_display_rule. destruct (save_app_rules _ d). now simpl.
  - unfold remove_display_rule.
    destruct (display_rules (rules r)) as [all|]; [| now simpl].
    destruct (all !! display) as [current|]; [| now simpl].
    destruct (save_app_rules _ d). now simpl.
  - unfold add_startup_app, startup_close_others, get_startup_rules.
    destruct (mem app _); [| destruct (save_app_rules _ d)]; simpl;
      destruct (startup (rules r)); now simpl.
  - unfold remove_startup_app, startup_close_others, get_startup_rules.
    destruct (startup (rules r)) as [s|] eqn:E; [| simpl; now rewrite E].
    destruct (keep_open s) as [kept|]; [| simpl; now rewrite E].
    destruct (save_app_rules _ d). now simpl.
Qed.

(** X7.  When a mutator writes.  [add_display_rule] always calls
    [save_app_rules]; [add_startup_app] only for an app that is not kept
    yet; the removals whenever the list they filter exists, even if nothing
    is removed.  A mutator that writes makes one attempt, on the whole
    structure as it leaves it; one that does not leaves the registry and
    the disk as they were.  The behaviours file is never written. *)
Theorem mutators_write_once (m : mutator) (r : registry) (d : disk) :
  let out := run_mutator m r d in
  behaviors_file (disk_after out) = behaviors_file d /\
  faults (disk_after out) = (if writes m r then tail (faults d) else faults d) /\
  if writes m r
  then disk_after out = snd (save_app_rules (rules (registry_after out)) d)
  else registry_after out = r /\ disk_after out = d.
Proof.
  cbv zeta. destruct (run_mutator_cases m r d) as [_ H].
  destruct (writes m r).
  - rewrite H. destruct (save_app_rules_disk (rules (registry_after (run_mutator m r d))) d)
      as [Hb Hf].
    rewrite <- H at 3. now rewrite Hb, Hf.
  - destruct H as [-> ->]. auto.
Qed.

(** ** More on [match_command] *)

Module MatchMoreFacts.

Lemma match_loop_inv (bs : list behavior) (t : string) (b : behavior) (ps : params) :
  match_loop bs t = Ok (Some (b, ps)) ->
  exists before after groups,
    bs = before ++ b :: after /\
    Forall (passed_over t) before /\
    pattern_of b <> "" /\
    search (compile_pattern (pattern_of b)) t = Match groups /\
    ps = extract_params (pattern_of b) groups.
Proof.
  induction bs as [|x bs IH]; simpl; [discriminate |].
  destruct (String.eqb_spec (pattern_of x) "") as [He | Hne].
  - intros H. destruct (IH H) as (before & after & groups & -> & Hb & Hrest).
    exists (x :: before), after, groups. split; [reflexivity |].
    split; [constructor; [now left | assumption] | assumption].
  - destruct (search (compile_pattern (pattern_of x)) t) as [groups| |] eqn:Es.
    + intros H. injection H as <- <-.
      exists [], bs, groups. repeat split; try assumption. constructor.
    + intros H. destruct (IH H) as (before & after & groups & -> & Hb & Hrest).
      exists (x :: before), after, groups. split; [reflexivity |].
      split; [constructor; [now right | assumption] | assumption].
    + discriminate.
Qed.

Lemma match_loop_none (bs : list behavior) (t : string) :
  match_loop bs t = Ok None <-> Forall (passed_over t) bs.
Proof.
  split.
  - induction bs as [|x bs IH]; simpl; [constructor |].
    destruct (String.eqb_spec (pattern_of x) "") as [He | Hne].
    + intros H. constructor; [now left | auto].
    + destruct (search (compile_pattern (pattern_of x)) t) eqn:Es; try discriminate.
      intros H. constructor; [now right | auto].
  - intros H. rewrite <- (List.app_nil_r bs). now rewrite match_loop_passed.
Qed.

(** A captured group is a piece of the matched text. *)
Lemma derive_factor (p : list node) (txt : string) (groups : list string) (g : string) :
  derive p txt groups -> In g groups ->
  exists x y, txt = x +:+ g +:+ y.
Proof.
  revert txt groups. induction p as [|n p IH]; intros txt groups; simpl.
  - intros [_ ->] Hin. destruct Hin.
  - destruct n as [i | body].
    + intros (t1 & t2 & -> & _ & Hd) Hin.
      destruct (IH _ _ Hd Hin) as (x & y & ->).
      exists (t1 +:+ x), y. now rewrite append_assoc.
    + intros (t1 & t2 & gs & -> & -> & _ & Hd) [<- | Hin].
      * now exists EmptyString, t2.
      * destruct (IH _ _ Hd Hin) as (x & y & ->).
        exists (t1 +:+ x), y. now rewrite append_assoc.
Qed.

Lemma search_group_factor (pattern text : string) (groups : list string) (g : string) :
  search pattern text = Match groups -> In g groups ->
  exists x y, text = x +:+ g +:+ y.
Proof.
  unfold search. destruct (parse pattern) as [p|]; [| discriminate].
  destruct (search_nodes p text) as [gs|] eqn:E; [| discriminate].
  intros H Hin. injection H as ->.
  apply search_nodes_sound in E as (before & txt & rest & -> & Hd).
  destruct (derive_factor _ _ _ _ Hd Hin) as (x & y & ->).
  exists (before +:+ x), (y +:+ rest). now rewrite !append_assoc.
Qed.

Lemma extract_params_value (pattern : string) (groups : list string)
    (k : string) (v : option string) :
  In (k, v) (extract_params pattern groups) -> v = group1 groups.
Proof.
  unfold extract_params. rewrite in_app_iff.
  destruct (contains "{repo}" pattern), (contains "{port}" pattern); simpl;
    intros [H | H]; repeat (destruct H as [H | H]); try contradiction; congruence.
Qed.





End MatchMoreFacts.

Import MatchMoreFacts.

(** X8.  What [match_command] returns is read off the registry.  When it
    returns a behaviour, the behaviour is registered, its pattern is not
    empty, its compiled pattern is found in the lower-cased command, the
    parameters are those of that match, and every behaviour registered
    before it was passed over.  It returns nothing exactly when every
    registered behaviour is passed over. *)
Theorem match_command_returns_first_match (bs : list behavior) (command : string) :
  (forall b ps,
     match_command bs command = Ok (Some (b, ps)) ->
     exists before after groups,
       bs = before ++ b :: after /\
       Forall (passed_over (lower command)) before /\
       pattern_of b <> "" /\
       search (compile_pattern (pattern_of b)) (lower command) = Match groups /\
       ps = extract_params (pattern_of b) groups) /\
  (match_command bs command = Ok None <-> Forall (passed_over (lower command)) bs).
Proof.
  unfold match_command. split.
  - intros b ps. apply match_loop_inv.
  - apply match_loop_none.
Qed.

(** X9.  The case of the letters of a command does not count, and it is
    lost: [match_command] gives the same answer for the command in lower
    case, and every parameter it returns is a piece of the lower-cased
    command, so it has no capital letter. *)
Theorem match_command_lowers_the_command (bs : list behavior) (command : string) :
  match_command bs (lower command) = match_command bs command /\
  forall b ps k v,
    match_command bs command = Ok (Some (b, ps)) ->
    In (k, Some v) ps ->
    lower v = v /\ exists x y, lower command = x +:+ v +:+ y.
Proof.
  split; [unfold match_command; now rewrite lower_idem |].
  intros b ps k v Hm Hin. unfold match_command in Hm.
  apply match_loop_inv in Hm as (before & after & groups & _ & _ & _ & Hs & ->).
  apply extract_params_value in Hin. unfold group1 in Hin.
  destruct groups as [|g gs]; [discriminate |]. simpl in Hin. injection Hin as ->.
  destruct (search_group_factor _ _ _ g Hs) as (x & y & Hc); [now left |].
  split; [| now exists x, y].
  assert (Hl := lower_idem command). rewrite Hc in Hl.
  apply lower_fixed_app in Hl as [_ Hl]. now apply lower_fixed_app in Hl as [Hl _].
Qed.



(** ** More on the processor *)

Module StripFacts.

Lemma rstrip_idem (s : string) : rstrip (rstrip s) = rstrip s.
Proof.
  induction s as [|c s IH]; simpl; [reflexivity |].
  destruct (rstrip s) as [|x r] eqn:E.
  - destruct (isspace c) eqn:Hc; simpl; [reflexivity | now rewrite Hc].
  - simpl in IH. simpl. destruct (rstrip r) as [|y r'] eqn:Er.
    + destruct (isspace x); [discriminate | now rewrite IH].
    + now rewrite IH.
Qed.

Lemma lstrip_head (s : string) :
  lstrip s = "" \/ exists c s', lstrip s = String c s' /\ isspace c = false.
Proof.
  induction s as [|c s IH]; simpl; [now left |].
  destruct (isspace c) eqn:Hc; [assumption | right; eauto].
Qed.

Lemma rstrip_head (c : ascii) (s : string) :
  isspace c = false -> exists r, rstrip (String c s) = String c r.
Proof.
  intros Hc. simpl. destruct (rstrip s); rewrite ?Hc; eauto.
Qed.

Lemma strip_idem (s : string) : strip (strip s) = strip s.
Proof.
  unfold strip. destruct (lstrip_head s) as [-> | (c & s' & -> & Hc)];
    [reflexivity |].
  destruct (rstrip_head c s' Hc) as (r & E). rewrite E.
  assert (Hl : lstrip (String c r) = String c r) by (simpl; now rewrite Hc).
  rewrite Hl, <- E. apply rstrip_idem.
Qed.

End StripFacts.

Import StripFacts.

Module SubstituteFacts.

Lemma token_shape (k : string) : "{" +:+ k +:+ "}" = String "{" (k +:+ "}").
Proof. reflexivity. Qed.

Lemma substitute_without_brace (text : string) (ps : params) :
  all_chars (differs "{") text = true -> _substitute_params text ps = text.
Proof.
  intros H. unfold _substitute_params. induction ps as [|kv ps IH]; simpl;
    [reflexivity |].
  rewrite ?token_shape. now rewrite (replace_absent "{" _ _ text H).
Qed.

End SubstituteFacts.

Import SubstituteFacts.

(** X11.  [_substitute_params] on the fields of an action.  A text without
    an opening brace comes back as it is, whatever the parameters.  A
    placeholder between two such texts is replaced by the value of its
    parameter, and the value is not read again for placeholders. *)
Theorem substitute_params_fills_placeholder (a b k : string) (v : option string)
    (ps : params) :
  all_chars (differs "{") a = true ->
  all_chars (differs "{") b = true ->
  _substitute_params a ps = a /\
  _substitute_params (a +:+ "{" +:+ k +:+ "}" +:+ b) [(k, v)] = a +:+ str_of v +:+ b.
Proof.
  intros Ha Hb. split; [now apply substitute_without_brace |].
  unfold _substitute_params. simpl. rewrite ?token_shape.
  rewrite (replace_skip "{" _ _ a) by assumption.
  replace (String "{" (k +:+ String "}" b)) with (String "{" (k +:+ "}") +:+ b)
    by (cbn [String.append]; now rewrite append_assoc).
  now rewrite replace_occurrence, (replace_absent "{" _ _ b Hb).
Qed.

Lemma substitute_params_fills_placeholder_witness :
  _substitute_params "Desktop" [("repo", Some "solon")] = "Desktop" /\
  _substitute_params ("~/Desktop/" +:+ "{" +:+ "repo" +:+ "}" +:+ "/src") [("repo", Some "solon")] =
    "~/Desktop/" +:+ str_of (Some "solon") +:+ "/src".
Proof.
  split.
  - apply (substitute_params_fills_placeholder "Desktop" "" "repo" None); reflexivity.
  - apply (substitute_params_fills_placeholder "~/Desktop/" "/src" "repo"
             (Some "solon") []); reflexivity.
Defined.

Section ProcessorMoreFacts.

Variable env : trace -> call -> outcome bool.
Variable py_int : string -> option Z.
Variable parse_direct_command : string -> trace -> result command_result * trace.

Abbreviation execute' := (execute_behavior env py_int).
Abbreviation process' := (process_command env py_int parse_direct_command).
Abbreviation plan' := (planned_calls py_int).

(** An entry is [True] only for a call that succeeds. *)
Lemma reported_true (ps : params) (a : action) (t : trace) :
  reported env py_int ps a t = Some true <->
  recognised a = true /\
  exists c, planned_call py_int ps a = Some c /\ env t c = Returned true.
Proof.
  unfold reported, planned_call, recognised, bool_decide.
  repeat case_decide; simpl; try congruence.
  - split.
    + intros Hq. split; [reflexivity |]. eexists. split; [reflexivity |].
      destruct (env t _) as [[|]|]; congruence.
    + intros (_ & c & Hc & He). injection Hc as <-. now rewrite He.
  - split.
    + intros Hq. split; [reflexivity |]. eexists. split; [reflexivity |].
      destruct (env t _) as [[|]|]; congruence.
    + intros (_ & c & Hc & He). injection Hc as <-. now rewrite He.
  - split.
    + intros Hq. split; [reflexivity |]. eexists. split; [reflexivity |].
      destruct (env t _) as [[|]|]; congruence.
    + intros (_ & c & Hc & He). injection Hc as <-. now rewrite He.
  - destruct (py_int _) as [port|]; simpl.
    + split.
      * intros Hq. split; [reflexivity |]. eexists. split; [reflexivity |].
        destruct (env t _) as [[|]|]; congruence.
      * intros (_ & c & Hc & He). injection Hc as <-. now rewrite He.
    + split; [discriminate | intros (_ & c & Hc & _); discriminate].
  - split; [discriminate | intros [Hq _]; discriminate].
Qed.

Lemma answered_is_quiet (ps : params) (a : action) (t : trace) (c : call)
    (answer : bool) :
  planned_call py_int ps a = Some c ->
  env t c = Returned answer ->
  raises env py_int ps a t = false.
Proof.
  intros Hc He. unfold raises. rewrite Hc, He. now destruct c.
Qed.

Lemma forallb_truthy (rs : list (option bool)) :
  forallb truthy rs = true <-> forall i r, rs !! i = Some r -> r = Some true.
Proof.
  rewrite forallb_forall. split.
  - intros H i r Hi.
    assert (Hin : In r rs) by (apply list_elem_of_In, list_elem_of_lookup; eauto).
    apply H in Hin. now destruct r as [[|]|].
  - intros H r Hin. apply list_elem_of_In, list_elem_of_lookup in Hin as [i Hi].
    now rewrite (H i r Hi).
Qed.

(** X12.  A behaviour succeeds exactly when it has an action and every
    action is of a recognised type, makes its call, and the call succeeds.
    An action of an unknown type, or a [kill_port] whose port is not an
    integer, makes the behaviour fail, whatever the other actions do. *)
Theorem success_needs_every_call (b : behavior) (ps : params) (t : trace) :
  let actions := default [] (b_actions b) in
  (exists r t', execute' b ps t = (Ok r, t') /\ success r = true) <->
  actions <> [] /\
  forall i a, actions !! i = Some a ->
    recognised a = true /\
    exists c, planned_call py_int ps a = Some c /\
              env (t ++ plan' ps (take i actions)) c = Returned true.
Proof.
  cbv zeta. split.
  - intros (r & t' & He & Hs).
    destruct (execute_behavior_returns env py_int b ps t
                (execute_behavior_quiet env py_int b ps t r t' He))
      as (rs & He' & Hn & Hr).
    rewrite He in He'. injection He' as -> _. simpl in Hs.
    assert (Hf : forallb truthy rs = true)
      by (destruct rs; [discriminate | exact Hs]).
    split.
    + intros E. rewrite E in Hn. destruct rs; [discriminate Hs | discriminate Hn].
    + intros i a Ha. apply reported_true.
      apply (proj1 (forallb_truthy rs) Hf i). now apply Hr.
  - intros [Hne H].
    destruct (execute_behavior_returns env py_int b ps t) as (rs & He & Hn & Hr).
    { intros i a Ha. destruct (H i a Ha) as (_ & c & Hc & Hv).
      exact (answered_is_quiet ps a _ c true Hc Hv). }
    eexists. eexists. split; [exact He |]. simpl.
    assert (Hf : forallb truthy rs = true).
    { apply forallb_truthy. intros i r Hi.
      assert (Hlt : (i < length (default [] (b_actions b)))%nat)
        by (rewrite <- Hn; now apply lookup_lt_Some in Hi).
      apply lookup_lt_is_Some in Hlt as [a Ha].
      rewrite (Hr i a Ha) in Hi. injection Hi as <-.
      apply reported_true. now apply H. }
    destruct rs as [|r0 rs']; [| exact Hf].
    destruct (default [] (b_actions b)); [contradiction | discriminate].
Qed.

(** X13.  White space around a command does not count: [process_command]
    answers the stripped command as it answers the command. *)
Theorem process_command_ignores_white_space (behaviors : list behavior)
    (command : string) (t : trace) :
  process' behaviors (strip command) t = process' behaviors command t.
Proof. unfold process_command. now rewrite strip_idem. Qed.

(** X14.  A command that every registered behaviour passes over goes to
    the fallback parser: [parse_direct_command] gets the stripped command,
    after the registry was asked, and what it answers or raises is what
    [process_command] answers or raises.  So it is for every command when
    the behaviours file is missing or cannot be read, since the registry
    is then empty. *)
Theorem unmatched_command_goes_to_fallback (behaviors : list behavior)
    (command : string) (t : trace) :
  strip command <> "" ->
  Forall (passed_over (lower (strip command))) behaviors ->
  process' behaviors command t =
  parse_direct_command (strip command) (t ++ [AskedRegistry (strip command)]).
Proof.
  intros Hne Hp. unfold process_command.
  destruct (String.eqb_spec (strip command) ""); [contradiction |].
  assert (Hm : match_command behaviors (strip command) = Ok None)
    by (unfold match_command; now apply match_loop_none).
  now rewrite Hm.
Qed.

End ProcessorMoreFacts.

Lemma success_needs_every_call_witness :
  ~ exists r t',
      execute_behavior slack_is_down decimal_int ping [] [] = (Ok r, t') /\
      success r = true.
Proof.
  intros H.
  apply (success_needs_every_call slack_is_down decimal_int ping [] []) in H
    as [_ H].
  destruct (H 1%nat beep eq_refl) as [Hr _]. discriminate.
Defined.

(** X14 on a registry whose behaviours are passed over: the command goes
    to [parse_direct_command], which has port 3000 killed. *)
Lemma unmatched_command_goes_to_fallback_witness :
  process_command slack_is_down decimal_int fallback
    [idle; open_repo] " Kill port 3000 " [] =
  (Ok (FromDirect true "kill_port"),
   [AskedRegistry "Kill port 3000"; Called (KillPort 3000)]).
Proof.
  rewrite (unmatched_command_goes_to_fallback slack_is_down decimal_int fallback).
  - vm_compute. reflexivity.
  - vm_compute. discriminate.
  - constructor; [left; reflexivity |].
    constructor; [right; vm_compute; reflexivity | constructor].
Defined.

(** ** The port manager *)

Module PortFacts.

Section Loop.

Variable py_int : string -> option Z.
Variable run : port_trace -> port_event -> run_outcome.

Lemma get_processes_on_port_trace (port : Z) (t : port_trace) :
  snd (get_processes_on_port py_int run port t) = t ++ [Lsof port].
Proof.
  unfold get_processes_on_port. destruct (run t (Lsof port)); [reflexivity |].
  now destruct (_ && _).
Qed.

Lemma kill_port_unfold (port : Z) (force : bool) (t : port_trace) :
  kill_port py_int run port force t =
  match fst (get_processes_on_port py_int run port t) with
  | [] => (Returned false, t ++ [Lsof port])
  | pids =>
      kill_loop run (if force then "-9" else "-15") pids (true, t ++ [Lsof port])
  end.
Proof.
  unfold kill_port. rewrite <- get_processes_on_port_trace.
  now destruct (get_processes_on_port py_int run port t) as [[|pid pids] t1].
Qed.

Lemma history_cons (signal : string) (t : port_trace) (pid : Z) (pids : list Z) :
  t ++ map (Kill signal) (pid :: pids) =
  (t ++ [Kill signal pid]) ++ map (Kill signal) pids.
Proof. simpl. now rewrite <- List.app_assoc. Qed.

Lemma kill_loop_completes (signal : string) (pids : list Z) :
  forall (b : bool) (t : port_trace),
    (forall i pid, pids !! i = Some pid ->
       run (t ++ map (Kill signal) (take i pids)) (Kill signal pid) <> RunRaises) ->
    exists b',
      kill_loop run signal pids (b, t) =
        (Returned b', t ++ map (Kill signal) pids) /\
      (b' = true <->
       b = true /\
       forall i pid, pids !! i = Some pid ->
         exists out,
           run (t ++ map (Kill signal) (take i pids)) (Kill signal pid) =
           RunCompletes 0 out).
Proof.
  induction pids as [|pid pids IH]; intros b t Hrun.
  - exists b. simpl. rewrite List.app_nil_r. split; [reflexivity |].
    split; [intros ->; split; [reflexivity | intros i p Hi; discriminate] | tauto].
  - assert (H0 := Hrun 0%nat pid eq_refl). simpl in H0. rewrite List.app_nil_r in H0.
    simpl kill_loop. destruct (run t (Kill signal pid)) as [|rc out] eqn:E;
      [contradiction |].
    destruct (IH (if (rc =? 0)%Z then b else false) (t ++ [Kill signal pid]))
      as (b' & Hk & Hb).
    { intros i p Hi. rewrite <- history_cons. apply (Hrun (S i) p Hi). }
    exists b'. rewrite history_cons. split; [exact Hk |].
    rewrite Hb. split.
    + intros [Hc Hall]. destruct (Z.eqb_spec rc 0) as [-> |]; [| discriminate].
      split; [assumption |]. intros [|i] p Hi.
      * injection Hi as <-. simpl. rewrite List.app_nil_r. eauto.
      * change (take (S i) (pid :: pids)) with (pid :: take i pids).
        rewrite history_cons. now apply Hall.
    + intros [-> Hall]. destruct (Hall 0%nat pid eq_refl) as [out' H1].
      simpl in H1. rewrite List.app_nil_r, E in H1. injection H1 as -> _.
      split; [reflexivity |]. intros i p Hi. rewrite <- history_cons.
      apply (Hall (S i) p Hi).
Qed.

Lemma kill_loop_raises (signal : string) (pids : list Z) :
  forall (b : bool) (t : port_trace) (i : nat) (pid : Z),
    pids !! i = Some pid ->
    run (t ++ map (Kill signal) (take i pids)) (Kill signal pid) = RunRaises ->
    (forall j p, (j < i)%nat -> pids !! j = Some p ->
       run (t ++ map (Kill signal) (take j pids)) (Kill signal p) <> RunRaises) ->
    kill_loop run signal pids (b, t) =
      (Raised, t ++ map (Kill signal) (take (S i) pids)).
Proof.
  induction pids as [|q pids IH]; intros b t i pid Hi Hr Hbefore;
    [discriminate |].
  destruct i as [|i].
  - injection Hi as ->. simpl in Hr. rewrite List.app_nil_r in Hr.
    simpl. rewrite Hr. reflexivity.
  - assert (H0 := Hbefore 0%nat q ltac:(lia) eq_refl).
    simpl in H0. rewrite List.app_nil_r in H0.
    simpl kill_loop. destruct (run t (Kill signal q)) as [|rc out];
      [contradiction |].
    change (take (S (S i)) (q :: pids)) with (q :: take (S i) pids).
    rewrite history_cons. apply (IH _ _ i pid Hi).
    + rewrite <- history_cons. exact Hr.
    + intros j p Hj Hp. rewrite <- history_cons.
      apply (Hbefore (S j) p ltac:(lia) Hp).
Qed.

End Loop.

(** Lines of digits, as [lsof -t] prints them. *)

Lemma digit_solid (c : ascii) :
  isdigit c = true -> isspace c = false /\ Ascii.eqb c newline = false.
Proof.
  destruct c as [[] [] [] [] [] [] [] []]; vm_compute; intros H;
    try discriminate; split; reflexivity.
Qed.

Lemma rstrip_app_blank (a b : string) :
  rstrip b = "" -> rstrip (a +:+ b) = rstrip a.
Proof.
  intros Hb. induction a as [|c a IH]; simpl; [assumption | now rewrite IH].
Qed.

Lemma rstrip_app_solid (a b : string) :
  rstrip b <> "" -> rstrip (a +:+ b) = a +:+ rstrip b.
Proof.
  intros Hb. induction a as [|c a IH]; simpl; [reflexivity |].
  rewrite IH. destruct (a +:+ rstrip b) eqn:E; [| reflexivity].
  destruct a; simpl in E; [contradiction | discriminate].
Qed.

Lemma rstrip_digits (s : string) :
  all_chars isdigit s = true -> rstrip s = s.
Proof.
  induction s as [|c s IH]; simpl; [reflexivity |].
  intros H. apply andb_prop in H as [Hc Hs]. rewrite (IH Hs).
  destruct (digit_solid c Hc) as [-> _]. now destruct s.
Qed.

Lemma split_on_digits (s rest : string) :
  all_chars isdigit s = true ->
  split_on newline (s +:+ String newline rest) = s :: split_on newline rest.
Proof.
  induction s as [|c s IH]; simpl; [reflexivity |].
  intros H. apply andb_prop in H as [Hc Hs].
  destruct (digit_solid c Hc) as [_ ->]. now rewrite (IH Hs).
Qed.

Lemma split_on_digits_last (s : string) :
  all_chars isdigit s = true -> split_on newline s = [s].
Proof.
  induction s as [|c s IH]; simpl; [reflexivity |].
  intros H. apply andb_prop in H as [Hc Hs].
  destruct (digit_solid c Hc) as [_ ->]. now rewrite (IH Hs).
Qed.

Lemma joined_nonempty (line : string) (lines : list string) :
  line <> "" -> joined (line :: lines) <> "".
Proof.
  intros H. destruct line; [contradiction |]. now destruct lines.
Qed.

Lemma rstrip_lsof_output (lines : list string) :
  Forall line_ok lines -> rstrip (lsof_output lines) = joined lines.
Proof.
  induction 1 as [|line lines [Hd Hne] Hall IH]; [reflexivity |].
  cbn [lsof_output fold_right]. fold (lsof_output lines).
  destruct lines as [|line' lines].
  - simpl lsof_output. rewrite rstrip_app_blank by reflexivity.
    now apply rstrip_digits.
  - assert (Hj : joined (line' :: lines) <> "")
      by (apply joined_nonempty; inversion Hall as [|? ? [_ Hn] _]; exact Hn).
    change (joined (line :: line' :: lines))
      with (line +:+ String newline (joined (line' :: lines))).
    rewrite rstrip_app_solid.
    + cbn [rstrip]. fold rstrip. rewrite IH.
      destruct (joined (line' :: lines)) eqn:E; [contradiction | reflexivity].
    + cbn [rstrip]. fold rstrip. rewrite IH.
      destruct (joined (line' :: lines)); [contradiction | discriminate].
Qed.

Lemma lstrip_lsof_output (lines : list string) :
  Forall line_ok lines -> lstrip (lsof_output lines) = lsof_output lines.
Proof.
  destruct 1 as [|line lines [Hd Hne] _]; [reflexivity |].
  cbn [lsof_output fold_right]. destruct line as [|c line]; [contradiction |].
  simpl in Hd. apply andb_prop in Hd as [Hc _].
  cbn [String.append lstrip]. now destruct (digit_solid c Hc) as [-> _].
Qed.

Lemma split_on_joined (lines : list string) :
  Forall line_ok lines -> lines <> [] -> split_on newline (joined lines) = lines.
Proof.
  induction 1 as [|line lines [Hd Hne] Hall IH]; [contradiction |]. intros _.
  destruct lines as [|line' lines].
  - now apply split_on_digits_last.
  - change (joined (line :: line' :: lines))
      with (line +:+ String newline (joined (line' :: lines))).
    rewrite split_on_digits by assumption. now rewrite IH.
Qed.

Lemma filter_nonempty_lines (lines : list string) :
  Forall line_ok lines -> List.filter nonempty lines = lines.
Proof.
  induction 1 as [|line lines [_ Hne] _ IH]; [reflexivity |].
  simpl. rewrite IH. unfold nonempty.
  now destruct (String.eqb_spec line "").
Qed.

End PortFacts.

Import PortFacts.

Section PortManagerFacts.

Variable py_int : string -> option Z.
Variable run : port_trace -> port_event -> run_outcome.

Abbreviation processes := (get_processes_on_port py_int run).
Abbreviation kill_all := (kill_port py_int run).

(** X15.  When [lsof] could not be run, ends with another return code
    than 0, prints nothing but white space, or prints a line that [int]
    rejects, [kill_port] finds no process: it answers [False] after the one
    [lsof] run and signals nothing.  One bad line discards the processes of
    all the other lines. *)
Theorem kill_port_without_processes (port : Z) (force : bool) (t : port_trace) :
  run t (Lsof port) = RunRaises \/
  (exists returncode stdout,
     run t (Lsof port) = RunCompletes returncode stdout /\
     (returncode <> 0%Z \/
      strip stdout = "" \/
      exists line, In line (split_on newline (strip stdout)) /\
                   line <> "" /\ py_int line = None)) ->
  processes port t = ([], t ++ [Lsof port]) /\
  kill_all port force t = (Returned false, t ++ [Lsof port]).
Proof.
  intros H.
  assert (Hp : processes port t = ([], t ++ [Lsof port])).
  { unfold get_processes_on_port.
    destruct H as [-> | (rc & out & -> & H)]; [reflexivity |].
    destruct H as [Hrc | [Hs | (line & Hin & Hne & Hint)]].
    - now destruct (Z.eqb_spec rc 0).
    - rewrite Hs. now rewrite andb_false_r.
    - destruct (_ && _); [| reflexivity]. f_equal.
      destruct (mapM py_int _) as [pids|] eqn:E; [| reflexivity].
      assert (Hs := mk_is_Some _ _ E).
      exfalso. apply mapM_is_Some in Hs. rewrite Forall_forall in Hs.
      specialize (Hs line). rewrite list_elem_of_In, filter_In in Hs.
      destruct Hs as [? Hs].
      + split; [assumption |]. unfold nonempty.
        now destruct (String.eqb_spec line "").
      + simpl in Hs. congruence. }
  split; [exact Hp |]. rewrite kill_port_unfold, Hp. reflexivity.
Qed.

(** X16.  When [lsof] found processes and every [kill] could be run,
    [kill_port] signals every process once, in the order of the [lsof]
    lines, also after a [kill] has failed; the signal is [-9] with [force]
    and [-15] without, and [close_port] is [kill_port] without [force].  The
    answer is [True] exactly when every [kill] ended with return code 0. *)
Theorem kill_port_signals_every_process (port : Z) (force : bool)
    (t : port_trace) (pid : Z) (pids : list Z) :
  let found := pid :: pids in
  let signal := if force then "-9" else "-15" in
  let history i := t ++ Lsof port :: map (Kill signal) (take i found) in
  fst (processes port t) = found ->
  (forall i p, found !! i = Some p ->
     run (history i) (Kill signal p) <> RunRaises) ->
  exists killed,
    kill_all port force t = (Returned killed, history (length found)) /\
    (killed = true <->
     forall i p, found !! i = Some p ->
       exists out, run (history i) (Kill signal p) = RunCompletes 0 out) /\
    close_port py_int run port t = kill_all port false t.
Proof.
  cbv beta zeta. intros Hp Hrun.
  destruct (kill_loop_completes py_int run (if force then "-9" else "-15") (pid :: pids)
              true (t ++ [Lsof port])) as (killed & Hk & Hb).
  { intros i p Hi. rewrite <- List.app_assoc. now apply Hrun. }
  exists killed. rewrite kill_port_unfold, Hp. cbv beta iota.
  unfold port_trace in *. rewrite Hk, firstn_all.
  rewrite <- List.app_assoc. split; [reflexivity |]. split; [| reflexivity].
  rewrite Hb. split.
  - intros [_ H] i p Hi. specialize (H i p Hi).
    now rewrite <- List.app_assoc in H.
  - intros H. split; [reflexivity |]. intros i p Hi.
    rewrite <- List.app_assoc. now apply H.
Qed.

(** X17.  An exception of [kill] other than a failed exit leaves
    [kill_port]: the processes of the later lines are not signalled. *)
Theorem kill_port_stops_at_an_exception (port : Z) (force : bool)
    (t : port_trace) (found : list Z) (i : nat) (pid : Z) :
  let signal := if force then "-9" else "-15" in
  let history i := t ++ Lsof port :: map (Kill signal) (take i found) in
  fst (processes port t) = found ->
  found !! i = Some pid ->
  run (history i) (Kill signal pid) = RunRaises ->
  (forall j p, (j < i)%nat -> found !! j = Some p ->
     run (history j) (Kill signal p) <> RunRaises) ->
  kill_all port force t = (Raised, history (S i)).
Proof.
  cbv beta zeta. intros Hp Hi Hr Hbefore.
  rewrite kill_port_unfold, Hp. destruct found as [|q found]; [discriminate |].
  cbv beta iota. unfold port_trace in *.
  rewrite (kill_loop_raises run _ (q :: found) true _ i pid Hi).
  - now rewrite <- List.app_assoc.
  - now rewrite <- List.app_assoc.
  - intros j p Hj Hp'. rewrite <- List.app_assoc. now apply Hbefore.
Qed.

(** X18.  [get_processes_on_port] reads what [lsof -t] prints: when the
    run ends with return code 0 and its output is one line of digits for
    each process, the answer is the list of the numbers that [int] reads off
    the lines, in their order. *)
Theorem get_processes_on_port_reads_lines (port : Z) (t : port_trace)
    (lines : list string) (pids : list Z) :
  run t (Lsof port) = RunCompletes 0 (lsof_output lines) ->
  Forall line_ok lines ->
  Forall2 (fun line pid => py_int line = Some pid) lines pids ->
  processes port t = (pids, t ++ [Lsof port]).
Proof.
  intros Hrun Hl Hp. unfold get_processes_on_port. rewrite Hrun.
  unfold strip. rewrite (lstrip_lsof_output lines Hl), (rstrip_lsof_output lines Hl).
  destruct lines as [|line lines].
  - inversion Hp. reflexivity.
  - assert (Hj : nonempty (joined (line :: lines)) = true).
    { unfold nonempty. destruct (String.eqb_spec (joined (line :: lines)) "") as [E|];
        [| reflexivity].
      exfalso. revert E. apply joined_nonempty.
      inversion Hl as [|? ? [_ Hn] _]. exact Hn. }
    rewrite Hj. simpl andb. cbv iota.
    rewrite (split_on_joined _ Hl) by discriminate.
    rewrite (filter_nonempty_lines _ Hl).
    assert (Hm : mapM py_int (line :: lines) = Some pids)
      by (apply mapM_Some; exact Hp).
    now rewrite Hm.
Qed.

End PortManagerFacts.

Lemma kill_port_without_processes_witness :
  kill_port decimal_int
    (fun _ _ => RunCompletes 0 (lsof_output ["812"; "n/a"; "93"])) 3000 true [] =
  (Returned false, [Lsof 3000]).
Proof.
  apply (kill_port_without_processes decimal_int
           (fun _ _ => RunCompletes 0 (lsof_output ["812"; "n/a"; "93"])) 3000 true []).
  right. exists 0%Z, (lsof_output ["812"; "n/a"; "93"]).
  split; [reflexivity |]. right. right. exists "n/a".
  split; [vm_compute; tauto |]. split; [discriminate | reflexivity].
Defined.

Lemma kill_port_signals_every_process_witness :
  kill_port decimal_int stubborn 3000 false [] =
  (Returned false, [Lsof 3000; Kill "-15" 812; Kill "-15" 93; Kill "-15" 4]).
Proof.
  destruct (kill_port_signals_every_process decimal_int stubborn 3000 false []
              812 [93; 4]%Z) as (killed & Hk & Hb & _).
  - reflexivity.
  - intros i p _. destruct (p =? 93)%Z eqn:E; simpl; rewrite E; discriminate.
  - rewrite Hk. destruct killed; [| reflexivity].
    destruct Hb as [Hb _]. destruct (Hb eq_refl 1%nat 93%Z eq_refl) as [out H].
    discriminate.
Defined.

Lemma kill_port_stops_at_an_exception_witness :
  kill_port decimal_int no_kill 3000 true [] = (Raised, [Lsof 3000; Kill "-9" 812]).
Proof.
  apply (kill_port_stops_at_an_exception decimal_int no_kill 3000 true []
           [812; 93]%Z 0%nat 812%Z); [reflexivity | reflexivity | reflexivity |].
  intros j p Hj. lia.
Defined.

Lemma get_processes_on_port_reads_lines_witness :
  get_processes_on_port decimal_int stubborn 3000 [] = ([812; 93; 4]%Z, [Lsof 3000]).
Proof.
  apply (get_processes_on_port_reads_lines decimal_int stubborn 3000 []
           ["812"; "93"; "4"]).
  - reflexivity.
  - repeat constructor; discriminate.
  - repeat constructor.
Defined.

(** ** The display monitor *)

Section MonitorFacts.

Variable py_int : string -> option Z.
Variable osascript : monitor_trace -> script -> run_outcome.
Variable config_file : monitor_trace -> document app_rules.
Variable callback : monitor_trace -> nat -> Z -> bool.

Abbreviation count_displays := (get_display_count py_int osascript).
Abbreviation connected := (on_display_connected osascript config_file callback).
Abbreviation check := (check_display_change py_int osascript config_file callback).
Abbreviation poll := (polls py_int osascript config_file callback).
Abbreviation monitoring := (start_monitoring py_int osascript config_file callback).

Lemma get_display_count_trace (t : monitor_trace) :
  snd (count_displays t) = t ++ [Osascript CountDesktops].
Proof.
  unfold get_display_count.
  destruct (osascript t CountDesktops) as [|[| |] out]; reflexivity.
Qed.

Lemma check_without_new_display (m : monitor) (t : monitor_trace) :
  (fst (count_displays t) <= last_display_count m)%Z ->
  check m t =
  (Returned (fst (count_displays t)),
   Monitor (fst (count_displays t)) (callbacks m),
   t ++ [Osascript CountDesktops]).
Proof.
  intros Hle. unfold check_display_change.
  rewrite <- get_display_count_trace.
  destruct (count_displays t) as [c t1]. simpl in *.
  destruct (Z.eqb_spec c (last_display_count m)) as [-> | Hne];
    [now destruct m |].
  destruct (Z.ltb_spec (last_display_count m) c); [lia | reflexivity].
Qed.

Lemma check_malformed (m : monitor) (t : monitor_trace) :
  (last_display_count m < fst (count_displays t))%Z ->
  config_file (t ++ [Osascript CountDesktops]) = Malformed ->
  check m t = (Raised, m, t ++ [Osascript CountDesktops; ReadConfig]).
Proof.
  intros Hlt Hc. unfold check_display_change.
  assert (Ht := get_display_count_trace t).
  destruct (count_displays t) as [c t1]. simpl in *. subst t1.
  destruct (Z.eqb_spec c (last_display_count m)); [lia |].
  destruct (Z.ltb_spec (last_display_count m) c); [| lia].
  unfold on_display_connected, load_config. rewrite Hc. simpl.
  now rewrite <- List.app_assoc.
Qed.

Section Quiet.

Hypothesis runs : forall t s, osascript t s <> RunRaises.

Lemma scripted_trace (s : script) (t : monitor_trace) :
  exists b, scripted osascript s t = (Returned b, t ++ [Osascript s]).
Proof.
  unfold scripted, run_applescript.
  destruct (osascript t s) as [|rc out] eqn:E; [now apply runs in E |].
  simpl. eauto.
Qed.

Lemma apply_rule_trace (display_num : Z) (r : rule) (t : monitor_trace) :
  apply_rule osascript display_num r t =
  (Returned tt, t ++ map Osascript (rule_scripts r)).
Proof.
  unfold apply_rule, rule_scripts, move_windows_to_display.
  destruct (truth (default SNull (r !! "app"))); [| now rewrite List.app_nil_r].
  destruct (scripted_trace (MoveWindows (default SNull (r !! "app"))
              (truth (default (SBool false) (r !! "maximize")))) t) as [b ->].
  cbn [and_then].
  destruct (truth (default (SBool false) (r !! "maximize"))); [reflexivity |].
  cbn [negb]. unfold apply_window_behavior, maximize_window, minimize_window.
  repeat case_decide.
  - destruct (scripted_trace (MaximizeWindows (default SNull (r !! "app")))
                (t ++ [Osascript (MoveWindows (default SNull (r !! "app")) false)]))
      as [b' ->].
    cbn [and_then map]. now rewrite <- List.app_assoc.
  - destruct (scripted_trace (MinimizeWindows (default SNull (r !! "app")))
                (t ++ [Osascript (MoveWindows (default SNull (r !! "app")) false)]))
      as [b' ->].
    cbn [and_then map]. now rewrite <- List.app_assoc.
  - reflexivity.
  - reflexivity.
Qed.

Lemma apply_rules_trace (display_num : Z) (rs : list rule) :
  forall t,
    apply_rules osascript display_num rs t =
    (Returned tt, t ++ map Osascript (concat (map rule_scripts rs))).
Proof.
  induction rs as [|r rs IH]; intros t; simpl; [now rewrite List.app_nil_r |].
  rewrite apply_rule_trace. cbn [and_then]. rewrite IH.
  now rewrite map_app, List.app_assoc.
Qed.

End Quiet.

Lemma run_callbacks_trace (display_count : Z) (n : nat) :
  (forall t k, callback t k display_count = true) ->
  forall k t,
    run_callbacks callback n k display_count t =
    (Returned tt, t ++ map (fun i => Callback i display_count) (seq k n)).
Proof.
  intros Hret. induction n as [|n IH]; intros k t; simpl;
    [now rewrite List.app_nil_r |].
  rewrite Hret, IH. now rewrite <- List.app_assoc.
Qed.

(** X19.  A poll that finds no more displays than the monitor remembers
    only counts the displays: it does not read the configuration, runs no
    window script and no callback, and the monitor remembers the new count. *)
Theorem poll_without_new_display_is_quiet (m : monitor) (t : monitor_trace) :
  (fst (count_displays t) <= last_display_count m)%Z ->
  check m t =
  (Returned (fst (count_displays t)),
   Monitor (fst (count_displays t)) (callbacks m),
   t ++ [Osascript CountDesktops]).
Proof. apply check_without_new_display. Qed.

(** X20.  [start_monitoring] takes the displays that are connected when
    it starts as known: as long as the count stays what it is, no rule is
    applied, whatever the configuration holds. *)
Theorem start_monitoring_skips_connected_displays (c : Z) (n : nat)
    (m : monitor) (t : monitor_trace) :
  (forall t', fst (count_displays t') = c) ->
  monitoring n m t =
  (Monitor c (callbacks m), t ++ repeat (Osascript CountDesktops) (S n)).
Proof.
  intros Hc. unfold start_monitoring.
  assert (Ht := get_display_count_trace t). specialize (Hc t) as Hc0.
  destruct (count_displays t) as [c0 t0]. simpl in Ht, Hc0. subst c0 t0.
  change (repeat (Osascript CountDesktops) (S n))
    with ([Osascript CountDesktops] ++ repeat (Osascript CountDesktops) n).
  rewrite List.app_assoc. generalize (t ++ [Osascript CountDesktops]). clear t.
  induction n as [|n IH]; intros t; simpl; [now rewrite List.app_nil_r |].
  rewrite check_without_new_display by (rewrite Hc; simpl; lia).
  rewrite Hc. simpl. rewrite IH.
  change (Osascript CountDesktops :: repeat (Osascript CountDesktops) n)
    with ([Osascript CountDesktops] ++ repeat (Osascript CountDesktops) n).
  now rewrite List.app_assoc.
Qed.

(** X21.  A poll that raises leaves the count that the monitor remembers
    as it was.  So a new display is not recorded while the configuration
    file cannot be parsed: each poll counts the displays, reads the file and
    raises, and no window script is run. *)
Theorem malformed_config_is_read_at_every_poll (n : nat) (m : monitor)
    (t : monitor_trace) :
  (fst (fst (check m t)) = Raised -> snd (fst (check m t)) = m) /\
  ((forall t', last_display_count m < fst (count_displays t'))%Z ->
   (forall t', config_file t' = Malformed) ->
   poll n m t = (m, t ++ concat (repeat [Osascript CountDesktops; ReadConfig] n))).
Proof.
  split.
  - unfold check_display_change. destruct (count_displays t) as [c t1].
    destruct (c =? last_display_count m)%Z; [discriminate |].
    destruct (if (last_display_count m <? c)%Z then _ else _) as [[[]|] t2];
      [discriminate | reflexivity].
  - intros Hgrow Hbad. revert t.
    induction n as [|n IH]; intros t; simpl; [now rewrite List.app_nil_r |].
    rewrite check_malformed by auto. rewrite IH.
    now rewrite <- List.app_assoc.
Qed.

Lemma on_display_connected_trace (m : monitor) (display_count : Z)
    (t : monitor_trace) :
  (forall t' s, osascript t' s <> RunRaises) ->
  (forall t' k, callback t' k display_count = true) ->
  config_file t <> Malformed ->
  let config :=
    match config_file t with
    | Stored content => content
    | _ => default_app_rules
    end in
  connected m display_count t =
  (Returned tt,
   t ++ ReadConfig ::
     map Osascript
       ((if (2 <=? display_count)%Z then display_scripts "w1" config else []) ++
        (if (3 <=? display_count)%Z then display_scripts "w2" config else [])) ++
     map (fun k => Callback k display_count) (seq 0 (callbacks m))).
Proof.
  intros Hrun Hret Hcfg. cbv zeta.
  unfold on_display_connected, load_config, display_scripts.
  set (config := match config_file t with
                 | Stored content => content
                 | _ => default_app_rules
                 end).
  assert (Hl : match config_file t with
               | Stored content => (Returned content, t ++ [ReadConfig])
               | Missing => (Returned default_app_rules, t ++ [ReadConfig])
               | Malformed => (@Raised app_rules, t ++ [ReadConfig])
               end = (Returned config, t ++ [ReadConfig]))
    by (subst config; destruct (config_file t); congruence).
  unfold monitor_trace in *. rewrite Hl. cbn [and_then].
  assert (H1 : forall t0,
             (if (2 <=? display_count)%Z
              then apply_rules osascript 1
                     (default [] (default ∅ (display_rules config) !! "w1")) t0
              else (Returned tt, t0)) =
             (Returned tt,
              t0 ++ map Osascript
                (if (2 <=? display_count)%Z
                 then concat (map rule_scripts
                        (default [] (default ∅ (display_rules config) !! "w1")))
                 else []))).
  { intros t0. destruct (2 <=? display_count)%Z;
      [now apply apply_rules_trace | now rewrite List.app_nil_r]. }
  assert (H2 : forall t0,
             (if (3 <=? display_count)%Z
              then apply_rules osascript 2
                     (default [] (default ∅ (display_rules config) !! "w2")) t0
              else (Returned tt, t0)) =
             (Returned tt,
              t0 ++ map Osascript
                (if (3 <=? display_count)%Z
                 then concat (map rule_scripts
                        (default [] (default ∅ (display_rules config) !! "w2")))
                 else []))).
  { intros t0. destruct (3 <=? display_count)%Z;
      [now apply apply_rules_trace | now rewrite List.app_nil_r]. }
  rewrite H1. cbn [and_then]. rewrite H2. cbn [and_then].
  rewrite run_callbacks_trace by assumption.
  rewrite map_app, <- !List.app_assoc. reflexivity.
Qed.

(** X22.  When a display was connected, the configuration is read once
    and its rules are applied in order: those of [w1] from two displays on,
    then those of [w2] from three displays on, then the callbacks.  A rule
    without an app is passed over; a rule moves the windows of its app and,
    unless it maximizes, applies its behaviour, which runs a script for
    [maximize] and [minimize] only.  The rules of [laptop] and the number of
    displays known before play no part. *)
Theorem on_display_connected_applies_rules (m : monitor) (display_count : Z)
    (t : monitor_trace) :
  (forall t' s, osascript t' s <> RunRaises) ->
  (forall t' k, callback t' k display_count = true) ->
  config_file t <> Malformed ->
  let config :=
    match config_file t with
    | Stored content => content
    | _ => default_app_rules
    end in
  connected m display_count t =
  (Returned tt,
   t ++ ReadConfig ::
     map Osascript
       ((if (2 <=? display_count)%Z then display_scripts "w1" config else []) ++
        (if (3 <=? display_count)%Z then display_scripts "w2" config else [])) ++
     map (fun k => Callback k display_count) (seq 0 (callbacks m))).
Proof. apply on_display_connected_trace. Qed.

End MonitorFacts.

Lemma poll_without_new_display_is_quiet_witness :
  check_display_change decimal_int (fun _ _ => RunCompletes 0 "1") (fun _ => Malformed)
    (fun _ _ _ => false) (Monitor 2 1) [] =
  (Returned 1%Z, Monitor 1 1, [Osascript CountDesktops]).
Proof.
  apply (poll_without_new_display_is_quiet decimal_int
           (fun _ _ => RunCompletes 0 "1") (fun _ => Malformed)
           (fun _ _ _ => false) (Monitor 2 1) []).
  vm_compute. discriminate.
Defined.

Lemma start_monitoring_skips_connected_displays_witness :
  start_monitoring decimal_int (fun _ _ => RunCompletes 0 "3") (fun _ => Stored two_displays)
    (fun _ _ _ => true) 2 (Monitor 0 1) [] =
  (Monitor 3 1, repeat (Osascript CountDesktops) 3).
Proof.
  apply (start_monitoring_skips_connected_displays decimal_int
           (fun _ _ => RunCompletes 0 "3") (fun _ => Stored two_displays)
           (fun _ _ _ => true) 3 2 (Monitor 0 1) []).
  reflexivity.
Defined.

Lemma malformed_config_is_read_at_every_poll_witness :
  polls decimal_int (fun _ _ => RunCompletes 0 "2") (fun _ => Malformed)
    (fun _ _ _ => true) 2 (Monitor 1 0) [] =
  (Monitor 1 0,
   [Osascript CountDesktops; ReadConfig; Osascript CountDesktops; ReadConfig]).
Proof.
  apply (malformed_config_is_read_at_every_poll decimal_int
           (fun _ _ => RunCompletes 0 "2") (fun _ => Malformed)
           (fun _ _ _ => true) 2 (Monitor 1 0) []).
  - intros t'. vm_compute. reflexivity.
  - reflexivity.
Defined.

Lemma on_display_connected_applies_rules_witness :
  on_display_connected (fun _ _ => RunCompletes 1 "") (fun _ => Stored two_displays)
    (fun _ _ _ => true) (Monitor 1 1) 2 [] =
  (Returned tt,
   [ReadConfig;
    Osascript (MoveWindows (SStr "Slack") false);
    Osascript (MinimizeWindows (SStr "Slack"));
    Osascript (MoveWindows (SStr "Cursor") true);
    Callback 0 2]).
Proof.
  apply (on_display_connected_applies_rules (fun _ _ => RunCompletes 1 "")
           (fun _ => Stored two_displays) (fun _ _ _ => true) (Monitor 1 1) 2 []);
    discriminate || reflexivity.
Defined.

(** ** The startup tasks *)

(** X23.  The startup rules have no effect when the daemon starts:
    [get_apps_with_login_items] answers the empty list also when its script
    succeeds, so [handle_startup] runs that one script, asks of no app
    whether it is running and quits none, whatever [keep_open] and
    [close_others] hold. *)
Theorem handle_startup_quits_nothing
    (osascript : startup_trace -> startup_event -> run_outcome)
    (r : registry) (t : startup_trace) :
  handle_startup osascript r t = t ++ [ListLoginItems].
Proof.
  unfold handle_startup, get_apps_with_login_items.
  destruct (osascript t ListLoginItems) as [|[| |] out];
    now destruct (truth (startup_close_others r)).
Qed.

(** ** From the registry to the monitor *)

Module PipelineFacts.

Lemma rule_scripts_new (app behavior : string) (maximize : bool) (old : rule) :
  rule_scripts (new_rule app behavior maximize ∪ old) =
  if nonempty app then
    MoveWindows (SStr app) maximize ::
    (if maximize then []
     else if decide (behavior = "maximize") then [MaximizeWindows (SStr app)]
     else if decide (behavior = "minimize") then [MinimizeWindows (SStr app)]
     else [])
  else [].
Proof.
  unfold rule_scripts.
  rewrite new_rule_app, new_rule_behavior, new_rule_maximize. simpl.
  destruct (nonempty app); [| reflexivity]. destruct maximize; [reflexivity |].
  repeat case_decide; congruence.
Qed.

Lemma update_first_In {A} (p : A -> bool) (f : A -> A) (l : list A) :
  List.filter p l <> [] -> exists x, In (f x) (update_first p f l).
Proof.
  induction l as [|y l IH]; simpl; [contradiction |].
  destruct (p y); intros H.
  - exists y. now left.
  - destruct (IH H) as [x Hx]. exists x. now right.
Qed.

Lemma add_rule_to_In (app behavior : string) (maximize : bool) (l : list rule) :
  exists old, In (new_rule app behavior maximize ∪ old)
                 (add_rule_to app behavior maximize l).
Proof.
  unfold add_rule_to. destruct (List.filter (has_app app) l) as [|x rest] eqn:E.
  - exists ∅. rewrite (right_id_L ∅ (∪)). apply in_or_app. right. now left.
  - apply update_first_In. rewrite E. discriminate.
Qed.

Lemma add_display_rule_stored (display app behavior : string) (maximize : bool)
    (r : registry) (d : disk) :
  next_write_succeeds d ->
  app_rules_file (disk_after (add_display_rule display app behavior maximize r d)) =
  Stored (rules (registry_after (add_display_rule display app behavior maximize r d))).
Proof.
  unfold next_write_succeeds, add_display_rule, save_app_rules.
  destruct (faults d) as [|[| |] later]; simpl; tauto.
Qed.

Lemma display_scripts_In (display : string) (config : app_rules) (x : rule)
    (s : script) :
  In x (default [] (default ∅ (display_rules config) !! display)) ->
  In s (rule_scripts x) ->
  In s (display_scripts display config).
Proof.
  intros Hx Hs. unfold display_scripts. apply in_concat.
  exists (rule_scripts x). split; [now apply in_map | assumption].
Qed.

End PipelineFacts.

Import PipelineFacts.

Section Pipeline.

Variable osascript : monitor_trace -> script -> run_outcome.
Variable config_file : monitor_trace -> document app_rules.
Variable callback : monitor_trace -> nat -> Z -> bool.

(** X24.  A rule that [add_display_rule] stores for [w1] or [w2] is
    applied when that display is connected next: the monitor, reading the
    file that the registry wrote, moves the windows of the app, maximized
    as the rule says, and runs the script of the rule's behaviour when the
    rule does not maximize. *)
Theorem stored_rule_is_applied_at_the_next_connection
    (display app behavior : string) (maximize : bool) (r : registry) (d : disk)
    (m : monitor) (display_count : Z) (t : monitor_trace) :
  let out := add_display_rule display app behavior maximize r d in
  let scripts :=
    snd (on_display_connected osascript config_file callback m display_count t) in
  next_write_succeeds d ->
  (forall t', config_file t' = app_rules_file (disk_after out)) ->
  (forall t' s, osascript t' s <> RunRaises) ->
  (forall t' k, callback t' k display_count = true) ->
  app <> "" ->
  (display = "w1" /\ (2 <= display_count)%Z) \/
  (display = "w2" /\ (3 <= display_count)%Z) ->
  In (Osascript (MoveWindows (SStr app) maximize)) scripts /\
  (maximize = false -> behavior = "maximize" ->
   In (Osascript (MaximizeWindows (SStr app))) scripts) /\
  (maximize = false -> behavior = "minimize" ->
   In (Osascript (MinimizeWindows (SStr app))) scripts).
Proof.
  cbv zeta. intros Hw Hcfg Hrun Hret Happ Hd.
  assert (Hs := add_display_rule_stored display app behavior maximize r d Hw).
  rewrite (on_display_connected_trace osascript config_file callback m
             display_count t Hrun Hret)
    by (rewrite Hcfg, Hs; discriminate).
  rewrite Hcfg, Hs. cbn [snd].
  set (after := registry_after (add_display_rule display app behavior maximize r d)).
  destruct (add_rule_to_In app behavior maximize (get_display_rules display r))
    as [old Hold].
  assert (Hlist : In (new_rule app behavior maximize ∪ old)
                    (default [] (default ∅ (display_rules (rules after)) !! display))).
  { change (default [] (default ∅ (display_rules (rules after)) !! display))
      with (get_display_rules display after).
    subst after. rewrite get_display_rules_add.
    destruct (decide (display = display)); [assumption | contradiction]. }
  assert (Hne : nonempty app = true)
    by (unfold nonempty; now destruct (String.eqb_spec app "")).
  assert (Hin : forall s, In s (rule_scripts (new_rule app behavior maximize ∪ old)) ->
                 In (Osascript s)
                   (t ++ ReadConfig ::
                    map Osascript
                      ((if (2 <=? display_count)%Z
                        then display_scripts "w1" (rules after) else []) ++
                       (if (3 <=? display_count)%Z
                        then display_scripts "w2" (rules after) else [])) ++
                    map (fun k => Callback k display_count) (seq 0 (callbacks m)))).
  { intros s Hsc. apply in_or_app. right. right. apply in_or_app. left.
    apply in_map, in_or_app.
    destruct Hd as [[-> Hc] | [-> Hc]].
    - left. apply Z.leb_le in Hc. rewrite Hc.
      now apply (display_scripts_In "w1" _ _ _ Hlist).
    - right. apply Z.leb_le in Hc. rewrite Hc.
      now apply (display_scripts_In "w2" _ _ _ Hlist). }
  rewrite rule_scripts_new, Hne in Hin.
  split; [apply Hin; now left |]. split.
  - intros -> ->. apply Hin. right. now left.
  - intros -> ->. apply Hin. right. now left.
Qed.

(** X25.  The monitor reads the lists of [w1] and [w2] and nothing else
    of the configuration: two files that agree on these two lists make
    [on_display_connected] do the same.  The startup rules and the rules
    of [laptop], or of a display of any other name, are never applied. *)
Theorem monitor_reads_only_w1_and_w2
    (config_file' : monitor_trace -> document app_rules)
    (config config' : app_rules) (m : monitor) (display_count : Z)
    (t : monitor_trace) :
  config_file t = Stored config ->
  config_file' t = Stored config' ->
  (forall display, display = "w1" \/ display = "w2" ->
     default [] (default ∅ (display_rules config) !! display) =
     default [] (default ∅ (display_rules config') !! display)) ->
  on_display_connected osascript config_file callback m display_count t =
  on_display_connected osascript config_file' callback m display_count t.
Proof.
  intros Hc Hc' Hsame. unfold on_display_connected, load_config.
  rewrite Hc, Hc'. cbn [and_then].
  now rewrite (Hsame "w1"), (Hsame "w2") by auto.
Qed.

End Pipeline.

Lemma stored_rule_is_applied_at_the_next_connection_witness :
  In (Osascript (MinimizeWindows (SStr "Slack")))
    (snd (on_display_connected (fun _ _ => RunCompletes 0 "ok")
            (fun _ => app_rules_file
                        (disk_after (add_display_rule "w2" "Slack" "minimize" false
                                       fresh empty_disk)))
            (fun _ _ _ => true) (Monitor 2 0) 3 [])).
Proof.
  apply (stored_rule_is_applied_at_the_next_connection
           (fun _ _ => RunCompletes 0 "ok")
           (fun _ => app_rules_file
                       (disk_after (add_display_rule "w2" "Slack" "minimize" false
                                      fresh empty_disk)))
           (fun _ _ _ => true) "w2" "Slack" "minimize" false fresh empty_disk
           (Monitor 2 0) 3 []); try reflexivity; try discriminate.
  right. split; [reflexivity | lia].
Defined.

Lemma monitor_reads_only_w1_and_w2_witness :
  on_display_connected (fun _ _ => RunCompletes 0 "ok")
    (fun _ => Stored two_displays) (fun _ _ _ => true) (Monitor 1 0) 3 [] =
  on_display_connected (fun _ _ => RunCompletes 0 "ok")
    (fun _ => Stored
       (rules (registry_after
                 (add_display_rule "laptop" "Mail" "maximize" false
                    (Registry [] two_displays) empty_disk))))
    (fun _ _ _ => true) (Monitor 1 0) 3 [].
Proof.
  apply (monitor_reads_only_w1_and_w2 (fun _ _ => RunCompletes 0 "ok")
           (fun _ => Stored two_displays) (fun _ _ _ => true)
           (fun _ => Stored
              (rules (registry_after
                        (add_display_rule "laptop" "Mail" "maximize" false
                           (Registry [] two_displays) empty_disk))))
           two_displays
           (rules (registry_after
                     (add_display_rule "laptop" "Mail" "maximize" false
                        (Registry [] two_displays) empty_disk)))
           (Monitor 1 0) 3 []); [reflexivity | reflexivity |].
  intros display [-> | ->]; reflexivity.
Defined.

(** ** Instances *)

Lemma remove_display_rule_removes_app_witness :
  registry_after
    (remove_display_rule "w1" "Slack" (Registry [] (AppRules None None)) empty_disk) =
  Registry [] (AppRules None None).
Proof.
  apply (remove_display_rule_removes_app "w1" "Slack"
           (Registry [] (AppRules None None)) empty_disk).
  reflexivity.
Defined.

Lemma remove_startup_app_removes_app_witness :
  registry_after
    (remove_startup_app "Slack" (Registry [] (AppRules None None)) empty_disk) =
  Registry [] (AppRules None None).
Proof.
  apply (remove_startup_app_removes_app "Slack"
           (Registry [] (AppRules None None)) empty_disk).
  reflexivity.
Defined.

Lemma match_command_returns_first_match_witness :
  exists before after groups,
    [idle; open_repo; kill_port_b] = before ++ open_repo :: after /\
    Forall (passed_over (lower "Open Solon")) before /\
    pattern_of open_repo <> "" /\
    search (compile_pattern (pattern_of open_repo)) (lower "Open Solon") =
      Match groups /\
    [("repo", Some "s")] = extract_params (pattern_of open_repo) groups.
Proof.
  apply (proj1 (match_command_returns_first_match [idle; open_repo; kill_port_b]
                  "Open Solon") open_repo [("repo", Some "s")]).
  vm_compute. reflexivity.
Defined.

Lemma match_command_lowers_the_command_witness :
  lower "s" = "s" /\ exists x y, lower "Open Solon" = x +:+ "s" +:+ y.
Proof.
  apply (proj2 (match_command_lowers_the_command [idle; open_repo] "Open Solon")
           open_repo [("repo", Some "s")] "repo" "s").
  - vm_compute. reflexivity.
  - now left.
Defined.
